(** * Natuna Framework, server core ([src/server/index.ts])

    A shallow embedding of the [Server] class: the storage driver factory
    [db], the command registry [registerCommand], plugin discovery
    [_getPlugins], the plugin initializer [_initServerPlugins], the version
    check [_checkPackageVersion], the lifecycle handlers
    [onServerResourceStart] / [onServerResourceStop], and the event handlers
    [requestClientSettings] and [playerConnecting].

    The mutable fields of the class ([plugins], [serverPlugins],
    [commands]) and everything the process does to the outside (console
    output, network and server events, module loads, directory reads) are
    threaded through a state-and-completion monad.  The file system, the
    module system and the remote version document are the environment: a
    [World] value that the operations read. *)

From Stdlib Require Import Ascii String.
From stdpp Require Import gmap strings list fin_maps pretty.


(* ===================================================================== *)
(** ** JavaScript values *)
(* ===================================================================== *)

Module JS.

(** The values a configuration document can hold. *)
#[warnings="-register-all"]
Inductive Value : Type :=
| Undefined
| Null
| Boolean (b : bool)
| Number (n : Z)
| Str (s : string)
| Object (fields : list (string * Value))
| Function (ident : string).

(** The [typeof] operator. *)
Definition typeof (v : Value) : string :=
  match v with
  | Undefined => "undefined"
  | Null => "object"
  | Boolean _ => "boolean"
  | Number _ => "number"
  | Str _ => "string"
  | Object _ => "object"
  | Function _ => "function"
  end.

(** Members every object literal [{}] inherits from [Object.prototype].
    All of them are truthy (functions, or the prototype object itself for
    [__proto__]), so [obj[key]] is truthy for these keys even when the
    object has no such property of its own. *)
Definition object_prototype_keys : list string :=
  [ "constructor"; "__defineGetter__"; "__defineSetter__"; "hasOwnProperty";
    "__lookupGetter__"; "__lookupSetter__"; "isPrototypeOf";
    "propertyIsEnumerable"; "toString"; "valueOf"; "__proto__";
    "toLocaleString" ].

Definition inherited (key : string) : bool :=
  bool_decide (key ∈ object_prototype_keys).

(** Result of the property read [obj[key]] on an object used as a
    dictionary: an own property, an inherited member, or [undefined]. *)
Inductive Property (A : Type) : Type :=
| Own (a : A)
| Inherited (key : string)
| Missing.
Arguments Own {A} a.
Arguments Inherited {A} key.
Arguments Missing {A}.

Definition get {A} (obj : gmap string A) (key : string) : Property A :=
  match obj !! key with
  | Some a => Own a
  | None => if inherited key then Inherited key else Missing
  end.

(** Truthiness of [obj[key]] when the own properties are objects. *)
Definition truthy {A} (p : Property A) : bool :=
  match p with
  | Own _ | Inherited _ => true
  | Missing => false
  end.

(** [String.prototype.toUpperCase] on ASCII text. *)
Definition upper_ascii (c : ascii) : ascii :=
  let n := nat_of_ascii c in
  if (97 <=? n)%nat && (n <=? 122)%nat then ascii_of_nat (n - 32) else c.

Fixpoint toUpperCase (s : string) : string :=
  match s with
  | EmptyString => EmptyString
  | String c rest => String (upper_ascii c) (toUpperCase rest)
  end.

End JS.

(* ===================================================================== *)
(** ** Data model *)
(* ===================================================================== *)

(** A thrown JavaScript value. *)
Inductive Error : Type :=
| JSError (message : string)          (* [new Error(message)] *)
| TypeError (message : string)        (* raised by the engine *)
| ModuleNotFound (path : string)      (* [require] failed *)
| IOError (path : string).            (* a file-system call failed *)

(** [Command.Handler]: a function, identified by reference. *)
Inductive Handler : Type := HandlerRef (id : nat).

(** [Command.Config]: an object literal; [{}] by default. *)
Definition CommandConfig : Type := list (string * JS.Value).

(** Modelled from the spec: the class [CommandWrapper] of
    [@server/command] is not part of the sources.  The spec's Command
    Entry is [{ name, handler, metadata, originSurface }]; the entry keeps
    the arguments the constructor call
    [new CommandWrapper(this, name, handler, config, isClientCommand)]
    receives. *)
Record CommandWrapper : Type := mkCommand {
  cmd_name : string;
  cmd_handler : Handler;
  cmd_config : CommandConfig;
  cmd_isClientCommand : bool;
}.

(** The first argument of [registerCommand]: [string | Array<string>]. *)
Inductive CommandName : Type :=
| Name (name : string)
| Aliases (names : list string).

(** Per-plugin, per-surface configuration block of [natuna.config.js]. *)
Definition PluginConfig : Type := list (string * JS.Value).

(** An element of [this.plugins[type]]:
    [{ name: string; file?: string; config?: any }]. *)
Record Descriptor : Type := mkDescriptor {
  d_name : string;
  d_file : option string;
  d_config : option PluginConfig;
}.

(** What a plugin's entry handler does with the server it is given: it
    registers commands and may throw. *)
Inductive PluginAction : Type :=
| DoRegisterCommand (name : CommandName) (handler : Handler)
                    (config : CommandConfig) (isClientCommand : bool)
| DoThrow (e : Error).

(** A loaded plugin module; [_handler] is absent when the module does not
    export one. *)
Record PluginModule : Type := mkModule {
  _handler : option (list PluginAction);
}.

(** What the process does to the outside, in the order it happens. *)
Inductive Effect : Type :=
| ConsoleLog (text : string)                      (* [console.log(text)] *)
| ConsoleLogModules (modules : list string)       (* [console.log(modules)] *)
| Logger (text : string)                          (* [this._logger(text)] *)
| EmitNet (event : string) (target : Z) (name : string)
          (config : CommandConfig)                (* [emitNet(...)] *)
| TriggerServerEvent (event : string)             (* [this.triggerServerEvent] *)
| ReadDir (path : string)                         (* [fs.readdir] *)
| Require (path : string)                         (* [require(path)] *)
| InvokeHandler (plugin : string)
                (config : option PluginConfig)    (* [module._handler(this, config)] *)
| Fetch (url : string).                           (* [fetch(url)] *)

(** The value of [this.plugins[type]] once read: the cached array, or a
    member inherited from [Object.prototype]. *)
Inductive PluginsValue : Type :=
| PluginList (l : list Descriptor)
| InheritedMember (key : string).

(** The mutable fields of [Server], and the trace of effects so far
    (oldest first). *)
Record Server : Type := mkServer {
  plugins : gmap string (list Descriptor);
  serverPlugins : gmap string PluginModule;
  commands : gmap string CommandWrapper;
  effects : list Effect;
}.

(** The state the constructor leaves: three empty tables. *)
Definition new_Server : Server :=
  {| plugins := ∅; serverPlugins := ∅; commands := ∅; effects := [] |}.

(* ===================================================================== *)
(** ** Control flow: state, exceptions and promises that never settle *)
(* ===================================================================== *)

(** How a call ends: it returns, it throws (an [async] function rejects),
    or it awaits a promise that is never settled. *)
Inductive Completion (A : Type) : Type :=
| Normal (a : A)
| Throw (e : Error)
| Pending.
Arguments Normal {A} a.
Arguments Throw {A} e.
Arguments Pending {A}.

Definition M (A : Type) : Type := Server → Server * Completion A.

Definition ret {A} (a : A) : M A := λ s, (s, Normal a).

Definition bind {A B} (m : M A) (k : A → M B) : M B :=
  λ s, match m s with
       | (s', Normal a) => k a s'
       | (s', Throw e) => (s', Throw e)
       | (s', Pending) => (s', Pending)
       end.

Notation "'do' x <- m ; k" := (bind m (λ x, k))
  (at level 20, x name, m at level 100, k at level 200,
   format "'[v' 'do'  x  <-  m ; '/' k ']'").
Notation "m ;; k" := (bind m (λ _, k))
  (at level 100, k at level 200, right associativity).

Definition throw {A} (e : Error) : M A := λ s, (s, Throw e).
Definition never {A} : M A := λ s, (s, Pending).

(** [try { body } catch (error) { handler }] *)
Definition try_catch {A} (body : M A) (handler : Error → M A) : M A :=
  λ s, match body s with
       | (s', Throw e) => handler e s'
       | r => r
       end.

Definition gets {A} (f : Server → A) : M A := λ s, (s, Normal (f s)).
Definition modify (f : Server → Server) : M unit := λ s, (f s, Normal tt).

(** The state after one more effect. *)
Definition record_effect (e : Effect) (s : Server) : Server :=
  {| plugins := plugins s; serverPlugins := serverPlugins s;
     commands := commands s; effects := effects s ++ [e] |}.

Definition effect (e : Effect) : M unit := modify (record_effect e).

(** [for (const x of l) body(x)] *)
Fixpoint for_of {A} (l : list A) (body : A → M unit) : M unit :=
  match l with
  | [] => ret tt
  | x :: rest => body x ;; for_of rest body
  end.

Definition when (b : bool) (m : M unit) : M unit := if b then m else ret tt.

(* ===================================================================== *)
(** ** Storage driver selection: [db] *)
(* ===================================================================== *)

(** [natuna.config.js], as far as this file reads it. *)
Record Config : Type := mkConfig {
  core_db : JS.Value;
  config_plugins : gmap string (gmap string PluginConfig);
}.

(** The two driver objects [db] can construct. *)
Inductive DatabaseDriver : Type :=
| Cassandra
| MySQL (connection : JS.Value) (table : string).

(** [db = (table) => { switch (typeof config.core.db) { case "cassandra":
    return new Cassandra(); case "mysql": default: return new
    MySQL(mysql.createConnection(this.config.core.db), table); } }] *)
Definition db (config : Config) (table : string) : DatabaseDriver :=
  let scrutinee := JS.typeof (core_db config) in
  if String.eqb scrutinee "cassandra" then Cassandra
  else if String.eqb scrutinee "mysql" then MySQL (core_db config) table
  else MySQL (core_db config) table.

(** The selection as the specification words it: the backend selector
    names the driver. *)
Definition selected_driver_spec (config : Config) (table : string)
  : DatabaseDriver :=
  match core_db config with
  | JS.Str "cassandra" => Cassandra
  | _ => MySQL (core_db config) table
  end.

(* ===================================================================== *)
(** ** Command registry: [registerCommand] *)
(* ===================================================================== *)

Definition quote : string := String "034"%char EmptyString.

(** [`Command "${name}" had already been registered before!`] *)
Definition duplicate_command_message (name : string) : string :=
  "Command " +:+ quote +:+ name +:+ quote +:+
  " had already been registered before!".

Definition DuplicateCommand (name : string) : Error :=
  JSError (duplicate_command_message name).

(** Truthiness of [this.commands[name]]. *)
Definition command_registered (name : string) : M bool :=
  gets (λ s, JS.truthy (JS.get (commands s) name)).

(** The state after [this.commands[name] = entry]. *)
Definition store_command (name : string) (entry : CommandWrapper) (s : Server)
  : Server :=
  {| plugins := plugins s; serverPlugins := serverPlugins s;
     commands := <[name := entry]> (commands s); effects := effects s |}.

Definition set_command (name : string) (entry : CommandWrapper) : M unit :=
  modify (store_command name entry).

(** [emitNet("natuna:client:setCommandDescription", -1, name, config)] *)
Definition describe (name : string) (config : CommandConfig) : Effect :=
  EmitNet "natuna:client:setCommandDescription" (-1) name config.

(** The inner [addCommand] closure. *)
Definition addCommand (handler : Handler) (config : CommandConfig)
    (isClientCommand : bool) (name : string) : M unit :=
  do registered <- command_registered name;
  if registered && negb isClientCommand
  then throw (DuplicateCommand name)
  else
    effect (describe name config) ;;
    do registered <- command_registered name;
    if registered && isClientCommand
    then ret tt
    else set_command name (mkCommand name handler config isClientCommand).

Definition registerCommand (name : CommandName) (handler : Handler)
    (config : CommandConfig) (isClientCommand : bool) : M bool :=
  match name with
  | Aliases names => for_of names (addCommand handler config isClientCommand)
  | Name name => addCommand handler config isClientCommand name
  end ;;
  ret true.

(* ===================================================================== *)
(** ** The environment: plugin folder, modules, remote package *)
(* ===================================================================== *)

(** Outcome of evaluating a module with [require]. *)
Inductive Load (A : Type) : Type :=
| Loaded (a : A)
| LoadThrows (e : Error).
Arguments Loaded {A} a.
Arguments LoadThrows {A} e.

(** The value of [manifest.plugins[type]] when it is truthy: an array of
    file names, or something [for ... of] cannot iterate. *)
Inductive SurfaceModules : Type :=
| ModuleFiles (files : list string)
| NotIterable.

(** A manifest object: [{ active, plugins: { server?, client? } }].
    [active] is the truthiness of the field; [manifest_plugins] is absent
    when [manifest.plugins] is falsy. *)
Record Manifest : Type := mkManifest {
  active : bool;
  manifest_plugins : option (gmap string SurfaceModules);
}.

(** An entry of a plugin's own folder ([client], [server], [ui], ...) with
    the [.ts] files below it. *)
Record ModuleTypeDir : Type := mkModuleTypeDir {
  mt_name : string;
  mt_isDirectory : bool;
  mt_modules : list string;
}.

(** An entry of the [plugins] folder.  The manifest fields give what
    [require(".../manifest.ts").default()] and [require(".../manifest.json")]
    evaluate to; [None] is a falsy manifest value.  [pd_server] gives what
    requiring a file below [server/] evaluates to. *)
Record PluginDir : Type := mkPluginDir {
  pd_name : string;
  pd_isDirectory : bool;
  pd_children : list ModuleTypeDir;
  pd_manifest_ts : Load (option Manifest);
  pd_manifest_json : Load (option Manifest);
  pd_server : gmap string (Load PluginModule);
}.

(** [remote_version] is the [version] of the remote [package.json] when
    the request and [JSON.parse] succeed; otherwise the promise chain of
    [_checkPackageVersion] rejects and nothing settles the promise the
    caller awaits. *)
Record World : Type := mkWorld {
  config : Config;
  resource_name : string;             (* [GetCurrentResourceName()] *)
  plugin_root : list PluginDir;       (* the [plugins] folder, in [readdir] order *)
  banner : string;                    (* what figlet renders *)
  pkg_version : string;               (* [pkg.version] *)
  remote_version : option string;
}.

Definition find_plugin (w : World) (name : string) : option PluginDir :=
  List.find (λ dir, String.eqb (pd_name dir) name) (plugin_root w).

(** tiny-glob leaves out hidden entries: a leading dot followed by a
    character other than a dot or a separator. *)
Definition isHidden (name : string) : bool :=
  match name with
  | String "."%char (String c _) =>
      negb (Ascii.eqb c "."%char || Ascii.eqb c "/"%char || Ascii.eqb c "\"%char)
  | _ => false
  end.

(* ===================================================================== *)
(** ** Plugin discovery: [_getPlugins] *)
(* ===================================================================== *)

(** The first loop of [_getPlugins]: it walks [plugins/*] and prints the
    [.ts] modules of every module-type folder.  The table it fills is a
    local that nothing reads. *)
Definition scan_module_types (w : World) : M unit :=
  for_of (List.filter (λ dir, negb (isHidden (pd_name dir))) (plugin_root w))
    (λ dir,
      when (pd_isDirectory dir)
        (for_of (List.filter (λ mt, negb (isHidden (mt_name mt))) (pd_children dir))
           (λ mt, when (mt_isDirectory mt)
                    (effect (ConsoleLogModules (mt_modules mt)))))).

Definition manifest_ts_path (pluginName : string) : string :=
  "../../plugins/" +:+ pluginName +:+ "/manifest.ts".
Definition manifest_json_path (pluginName : string) : string :=
  "../../plugins/" +:+ pluginName +:+ "/manifest.json".
Definition plugin_folder_path (pluginName : string) : string :=
  "plugins/" +:+ pluginName.

Definition require_with {A} (path : string) (found : option (Load A)) : M A :=
  effect (Require path) ;;
  match found with
  | Some (Loaded a) => ret a
  | Some (LoadThrows e) => throw e
  | None => throw (ModuleNotFound path)
  end.

(** [require(`../../plugins/${pluginName}/manifest.ts`).default()] *)
Definition require_manifest_ts (w : World) (pluginName : string)
  : M (option Manifest) :=
  require_with (manifest_ts_path pluginName)
               (pd_manifest_ts <$> find_plugin w pluginName).

(** [require(`../../plugins/${pluginName}/manifest.json`)] *)
Definition require_manifest_json (w : World) (pluginName : string)
  : M (option Manifest) :=
  require_with (manifest_json_path pluginName)
               (pd_manifest_json <$> find_plugin w pluginName).

(** [readDirAsync(path.join(pluginsFolderPath, pluginName))] *)
Definition readdir_plugin (w : World) (pluginName : string) : M (list string) :=
  effect (ReadDir (plugin_folder_path pluginName)) ;;
  match find_plugin w pluginName with
  | Some dir =>
      if pd_isDirectory dir then ret (mt_name <$> pd_children dir)
      else throw (IOError (plugin_folder_path pluginName))
  | None => throw (IOError (plugin_folder_path pluginName))
  end.

(** [this.config.plugins[pluginName] && this.config.plugins[pluginName][type]
     ? this.config.plugins[pluginName][type] : {}].  Configuration blocks
    are objects, hence truthy when present. *)
Definition plugin_config (cfg : Config) (pluginName type : string) : PluginConfig :=
  match config_plugins cfg !! pluginName with
  | Some surfaces =>
      match surfaces !! type with
      | Some block => block
      | None => []
      end
  | None => []
  end.

(** [try { manifest = require(".../manifest.ts").default(); }
     catch (error) { manifest = require(".../manifest.json"); }] *)
Definition require_manifest (w : World) (pluginName : string)
  : M (option Manifest) :=
  try_catch (require_manifest_ts w pluginName)
            (λ _, require_manifest_json w pluginName).

(** [if (manifest && manifest.active) { switch (type.toUpperCase()) ... }].
    [activePluginLists] is passed in and the extended array is returned;
    every statement that can throw comes before the pushes of its
    iteration. *)
Definition scan_manifest (w : World) (type : string)
    (activePluginLists : list Descriptor) (pluginName : string)
    (manifest : option Manifest) : M (list Descriptor) :=
  match manifest with
  | Some manifest =>
      if active manifest then
        let TYPE := JS.toUpperCase type in
        if String.eqb TYPE "CLIENT" || String.eqb TYPE "SERVER" then
          let config := plugin_config (config w) pluginName type in
          match manifest_plugins manifest with
          | Some surfaces =>
              match surfaces !! type with
              | Some (ModuleFiles files) =>
                  ret (activePluginLists ++
                       ((λ file, mkDescriptor pluginName (Some file) (Some config))
                          <$> files))
              | Some NotIterable =>
                  throw (TypeError "manifest.plugins[type] is not iterable")
              | None => ret activePluginLists
              end
          | None => ret activePluginLists
          end
        else if String.eqb TYPE "NUI" then
          do resourceTypes <- readdir_plugin w pluginName;
          if bool_decide ("ui" ∈ resourceTypes)
          then ret (activePluginLists ++ [mkDescriptor pluginName None None])
          else ret activePluginLists
        else ret activePluginLists
      else ret activePluginLists
  | None => ret activePluginLists
  end.

(** The body of the outer [try] for one [pluginName]. *)
Definition scan_plugin (w : World) (type : string)
    (activePluginLists : list Descriptor) (pluginName : string)
  : M (list Descriptor) :=
  do manifest <- require_manifest w pluginName;
  scan_manifest w type activePluginLists pluginName manifest.

(** [for (const pluginName of pluginLists) { try { ... } catch (error) { } }] *)
Fixpoint scan_plugins (w : World) (type : string) (pluginLists : list string)
    (activePluginLists : list Descriptor) : M (list Descriptor) :=
  match pluginLists with
  | [] => ret activePluginLists
  | pluginName :: rest =>
      do activePluginLists <-
         try_catch (scan_plugin w type activePluginLists pluginName)
                   (λ _, ret activePluginLists);
      scan_plugins w type rest activePluginLists
  end.

(** The inner [getPlugins]: [this.config] is set by the constructor, so
    the [while (!this.config)] wait is never entered. *)
Definition getPlugins (w : World) (type : string) : M (list Descriptor) :=
  effect (ReadDir "plugins") ;;
  scan_plugins w type (pd_name <$> plugin_root w) [].

(** The state after [this.plugins[type] = list]. *)
Definition store_plugins (type : string) (l : list Descriptor) (s : Server)
  : Server :=
  {| plugins := <[type := l]> (plugins s); serverPlugins := serverPlugins s;
     commands := commands s; effects := effects s |}.

Definition set_plugins (type : string) (l : list Descriptor) : M unit :=
  modify (store_plugins type l).

(** [return this.plugins[type] || (this.plugins[type] = await getPlugins(type))] *)
Definition _getPlugins (w : World) (type : string) : M PluginsValue :=
  scan_module_types w ;;
  do cached <- gets (λ s, JS.get (plugins s) type);
  match cached with
  | JS.Own l => ret (PluginList l)
  | JS.Inherited key => ret (InheritedMember key)
  | JS.Missing =>
      do l <- getPlugins w type;
      set_plugins type l ;;
      ret (PluginList l)
  end.

(* ===================================================================== *)
(** ** Plugin initializer: [_initServerPlugins] *)
(* ===================================================================== *)

Definition server_module_path (plugin : Descriptor) : string :=
  "../../plugins/" +:+ d_name plugin +:+ "/server/" +:+
  default "undefined" (d_file plugin).

(** [require(`../../plugins/${plugin.name}/server/${plugin.file}`)] *)
Definition require_server_module (w : World) (plugin : Descriptor)
  : M PluginModule :=
  require_with (server_module_path plugin)
    (dir ← find_plugin w (d_name plugin);
     pd_server dir !! default "undefined" (d_file plugin)).

(** The state after [this.serverPlugins[name] = module]. *)
Definition store_serverPlugin (name : string) (module : PluginModule)
    (s : Server) : Server :=
  {| plugins := plugins s;
     serverPlugins := <[name := module]> (serverPlugins s);
     commands := commands s; effects := effects s |}.

Definition set_serverPlugin (name : string) (module : PluginModule) : M unit :=
  modify (store_serverPlugin name module).

Definition run_action (action : PluginAction) : M unit :=
  match action with
  | DoRegisterCommand name handler config isClientCommand =>
      registerCommand name handler config isClientCommand ;; ret tt
  | DoThrow e => throw e
  end.

(** [this.serverPlugins[plugin.name]._handler(this, plugin.config)], on the
    module stored just before. *)
Definition call_handler (module : PluginModule) (plugin : Descriptor) : M unit :=
  match _handler module with
  | Some actions =>
      effect (InvokeHandler (d_name plugin) (d_config plugin)) ;;
      for_of actions run_action
  | None =>
      throw (TypeError "this.serverPlugins[plugin.name]._handler is not a function")
  end.

(** One turn of the loop of [_initServerPlugins]. *)
Definition init_plugin (w : World) (count : nat) (plugin : Descriptor) : M unit :=
  effect (Logger ("Ensuring Plugins: " +:+ pretty count +:+ ". " +:+ d_name plugin)) ;;
  do module <- require_server_module w plugin;
  set_serverPlugin (d_name plugin) module ;;
  call_handler module plugin.

(** [let count = 1; for (const plugin of plugins) { ...; count += 1; }] *)
Fixpoint init_plugins (w : World) (count : nat) (plugins : list Descriptor)
  : M unit :=
  match plugins with
  | [] => ret tt
  | plugin :: rest =>
      init_plugin w count plugin ;;
      init_plugins w (S count) rest
  end.

Definition _initServerPlugins (w : World) : M unit :=
  effect (Logger "Intializing Server Plugins") ;;
  do plugins <- _getPlugins w "server";
  match plugins with
  | PluginList plugins =>
      init_plugins w 1 plugins ;;
      effect (Logger "Server Plugins Ready!")
  | InheritedMember _ => throw (TypeError "plugins is not iterable")
  end.

(* ===================================================================== *)
(** ** Version check: [_checkPackageVersion] *)
(* ===================================================================== *)

(** [version.replace(/\./g, "")] *)
Fixpoint remove_dots (s : string) : string :=
  match s with
  | EmptyString => EmptyString
  | String c rest =>
      if Ascii.eqb c "."%char then remove_dots rest
      else String c (remove_dots rest)
  end.

(** The value of [c] as a digit in the given radix, if it is one. *)
Definition digit_value (radix : Z) (c : ascii) : option Z :=
  let n := Z.of_nat (nat_of_ascii c) in
  let d := if (48 <=? n)%Z && (n <=? 57)%Z then Some (n - 48)%Z
           else if (97 <=? n)%Z && (n <=? 122)%Z then Some (n - 87)%Z
           else if (65 <=? n)%Z && (n <=? 90)%Z then Some (n - 55)%Z
           else None in
  match d with
  | Some d => if (d <? radix)%Z then Some d else None
  | None => None
  end.

(** The longest prefix of digits, read as a number; [None] when there is
    no digit at all. *)
Fixpoint parse_digits (radix : Z) (s : string) (acc : option Z) : option Z :=
  match s with
  | EmptyString => acc
  | String c rest =>
      match digit_value radix c with
      | Some d => parse_digits radix rest (Some (radix * default 0%Z acc + d)%Z)
      | None => acc
      end
  end.

Definition isWhiteSpace (c : ascii) : bool :=
  let n := nat_of_ascii c in
  ((9 <=? n)%nat && (n <=? 13)%nat) || (n =? 32)%nat.

Fixpoint skip_whitespace (s : string) : string :=
  match s with
  | String c rest => if isWhiteSpace c then skip_whitespace rest else s
  | EmptyString => EmptyString
  end.

Definition parse_unsigned (s : string) : option Z :=
  match s with
  | String "0"%char (String "x"%char rest)
  | String "0"%char (String "X"%char rest) => parse_digits 16 rest None
  | _ => parse_digits 10 s None
  end.

(** [parseInt(s)] with no radix argument: leading white space, an optional
    sign, an optional [0x] prefix, then the leading digits; [None] is
    [NaN].  Numbers are exact integers. *)
Definition parseInt (s : string) : option Z :=
  match skip_whitespace s with
  | String "-"%char rest => Z.opp <$> parse_unsigned rest
  | String "+"%char rest => parse_unsigned rest
  | rest => parse_unsigned rest
  end.

Definition esc : string := String "027"%char EmptyString.

Definition version_url : string :=
  "https://raw.githack.com/natuna-framework/fivem/master/package.json".

(** The three-way comparison; with a [NaN] on either side no branch is
    taken. *)
Definition version_verdict (current remote : string) : M unit :=
  match parseInt (remove_dots current), parseInt (remove_dots remote) with
  | Some currentVersion, Some remoteVersion =>
      if (currentVersion <? remoteVersion)%Z then
        effect (Logger (esc +:+ "[31mYou are not using the latest version of Natuna Framework ("
                        +:+ remote +:+ "), please update it!"))
      else if (remoteVersion <? currentVersion)%Z then
        effect (Logger (esc +:+ "[31mYou are not using a valid version version of Natuna Framework!"))
      else
        effect (Logger (esc +:+ "[32mYou are using a latest version of Natuna Framework!"))
  | _, _ => ret tt
  end.

Definition _checkPackageVersion (w : World) : M bool :=
  effect (Logger "Welcome! Checking your version...") ;;
  effect (Logger ("You are currently using version " +:+ pkg_version w +:+ ".")) ;;
  effect (Fetch version_url) ;;
  match remote_version w with
  | Some remote => version_verdict (pkg_version w) remote ;; ret true
  | None => never
  end.

(* ===================================================================== *)
(** ** Lifecycle handlers *)
(* ===================================================================== *)

(** Modelled from the spec: [triggerServerEvent] belongs to the class
    [Events] of [@server/events], which is not part of the sources.  The
    spec says the facade "emits" the lifecycle event; the emission is
    recorded in the trace. *)
Definition triggerServerEvent (event : string) : M unit :=
  effect (TriggerServerEvent event).

(** The names of the lifecycle events. *)
Definition starting : string := "natuna:server:starting".
Definition initializing : string := "natuna:server:initializing".
Definition ready : string := "natuna:server:ready".
Definition stopped : string := "natuna:server:stopped".

Definition onServerResourceStart (w : World) (resourceName : string) : M unit :=
  if String.eqb (resource_name w) resourceName then
    triggerServerEvent starting ;;
    effect (ConsoleLog (banner w)) ;;
    _checkPackageVersion w ;;
    triggerServerEvent initializing ;;
    effect (Logger "Starting Server...") ;;
    _initServerPlugins w ;;
    triggerServerEvent ready ;;
    effect (Logger "Server Ready!")
  else ret tt.

Definition onServerResourceStop (w : World) (resourceName : string) : M unit :=
  if String.eqb (resource_name w) resourceName then
    triggerServerEvent stopped
  else ret tt.

(** ** Observations on a trace *)

(** The lifecycle events emitted, in order. *)
Definition lifecycle (trace : list Effect) : list string :=
  omap (λ e, match e with TriggerServerEvent ev => Some ev | _ => None end) trace.

(** The plugins whose entry handler was invoked, in order. *)
Definition activated (trace : list Effect) : list string :=
  omap (λ e, match e with InvokeHandler plugin _ => Some plugin | _ => None end)
       trace.

(** The paths passed to [require], in order. *)
Definition required (trace : list Effect) : list string :=
  omap (λ e, match e with Require path => Some path | _ => None end) trace.

(** The command-description broadcasts, in order. *)
Definition broadcasts (trace : list Effect) : list (string * CommandConfig) :=
  omap (λ e, match e with
             | EmitNet "natuna:client:setCommandDescription" _ name config =>
                 Some (name, config)
             | _ => None
             end) trace.


(* ===================================================================== *)
(** ** What Discovery is specified to return *)
(* ===================================================================== *)

(** The manifest of a plugin: the manifest module if it loads, else the
    static document. *)
Definition load_manifest (w : World) (pluginName : string)
  : Load (option Manifest) :=
  match find_plugin w pluginName with
  | Some dir =>
      match pd_manifest_ts dir with
      | Loaded v => Loaded v
      | LoadThrows _ => pd_manifest_json dir
      end
  | None => LoadThrows (ModuleNotFound (manifest_json_path pluginName))
  end.

(** A plugin is malformed when neither form of its manifest loads. *)
Definition malformed (w : World) (pluginName : string) : bool :=
  match load_manifest w pluginName with
  | Loaded _ => false
  | LoadThrows _ => true
  end.

(** Whether the plugin folder holds a [ui] entry. *)
Definition has_ui (w : World) (pluginName : string) : bool :=
  match find_plugin w pluginName with
  | Some dir => pd_isDirectory dir && bool_decide ("ui" ∈ mt_name <$> pd_children dir)
  | None => false
  end.

(** The Descriptors a loaded manifest value stands for on one surface, as
    the Discovery algorithm of the specification lists them (steps 3 to
    5). *)
Definition manifest_descriptors (w : World) (type pluginName : string)
    (manifest : option Manifest) : list Descriptor :=
  match manifest with
  | Some manifest =>
      if negb (active manifest) then []
      else if bool_decide (JS.toUpperCase type ∈ ["CLIENT"; "SERVER"]) then
        match manifest_plugins manifest ≫= (.!! type) with
        | Some (ModuleFiles files) =>
            (λ file, mkDescriptor pluginName (Some file)
                       (Some (default [] (config_plugins (config w) !! pluginName
                                          ≫= (.!! type))))) <$> files
        | _ => []
        end
      else if bool_decide (JS.toUpperCase type = "NUI") then
        if has_ui w pluginName then [mkDescriptor pluginName None None] else []
      else []
  | None => []
  end.

(** The Descriptors of one plugin for one surface (step 2: a plugin whose
    manifest does not load has none). *)
Definition plugin_descriptors (w : World) (type pluginName : string)
  : list Descriptor :=
  match load_manifest w pluginName with
  | Loaded manifest => manifest_descriptors w type pluginName manifest
  | LoadThrows _ => []
  end.

(* ===================================================================== *)
(** ** Reasoning about traces *)
(* ===================================================================== *)

(** [emits P m]: whatever [m] does and however it ends, it only appends
    to the trace, and every effect it appends satisfies [P]. *)
Definition emits {A} (P : Effect → Prop) (m : M A) : Prop :=
  ∀ s s' r, m s = (s', r) →
    ∃ t, effects s' = effects s ++ t ∧ Forall P t.

(** [keeps f m]: [m] never changes the field (or observation) [f]. *)
Definition keeps {A B} (f : Server → B) (m : M A) : Prop :=
  ∀ s s' r, m s = (s', r) → f s' = f s.

(** [grows P s s']: [s'] is [s] with more effects, all satisfying [P];
    the three tables are the same. *)
Definition grows (P : Effect → Prop) (s s' : Server) : Prop :=
  plugins s' = plugins s ∧ serverPlugins s' = serverPlugins s ∧
  commands s' = commands s ∧
  ∃ t, effects s' = effects s ++ t ∧ Forall P t.

(** [yields P m a]: from every state [m] returns [a], and only adds
    effects satisfying [P]. *)
Definition yields {A} (P : Effect → Prop) (m : M A) (a : A) : Prop :=
  ∀ s, ∃ s', m s = (s', Normal a) ∧ grows P s s'.

(** [fails P m e]: from every state [m] throws [e], and only adds
    effects satisfying [P]. *)
Definition fails {A} (P : Effect → Prop) (m : M A) (e : Error) : Prop :=
  ∀ s, ∃ s', m s = (s', Throw e) ∧ grows P s s'.

Definition is_lifecycle (e : Effect) : Prop :=
  match e with TriggerServerEvent _ => True | _ => False end.

(** The effects that are not lifecycle events. *)
Definition quiet (e : Effect) : Prop := ¬ is_lifecycle e.

Definition is_listing (e : Effect) : Prop :=
  match e with ConsoleLogModules _ => True | _ => False end.

Definition is_broadcast (e : Effect) : Prop :=
  match e with EmitNet _ _ _ _ => True | _ => False end.

Definition is_module_load (e : Effect) : Prop :=
  match e with Require _ | ReadDir _ => True | _ => False end.

Definition is_activation (e : Effect) : Prop :=
  match e with InvokeHandler _ _ => True | _ => False end.

(** The state after registering every alias of [names], each fresh. *)
Definition register_all (handler : Handler) (config : CommandConfig)
    (isClientCommand : bool) (names : list string) (s : Server) : Server :=
  foldl (λ s name,
           store_command name (mkCommand name handler config isClientCommand)
             (record_effect (describe name config) s))
        s names.

(* ===================================================================== *)
(** ** Sample inputs *)
(* ===================================================================== *)

Module Sample.

Definition greet : Handler := HandlerRef 1.
Definition other : Handler := HandlerRef 2.

Definition about : CommandConfig := [("description", JS.Str "Say Hello")].

(** A server on which the server command [hello] is registered. *)
Definition with_hello : Server :=
  {| plugins := ∅; serverPlugins := ∅;
     commands := {[ "hello" := mkCommand "hello" greet about false ]};
     effects := [] |}.

Definition server_only (files : list string) : Manifest :=
  {| active := true;
     manifest_plugins := Some {[ "server" := ModuleFiles files ]} |}.

Definition registers (name : string) (h : Handler) : Load PluginModule :=
  Loaded {| _handler := Some [DoRegisterCommand (Name name) h [] false] |}.

(** [alpha]: manifest module, one server file that registers [alpha]. *)
Definition alpha : PluginDir :=
  {| pd_name := "alpha"; pd_isDirectory := true;
     pd_children := [mkModuleTypeDir "server" true ["main.ts"];
                     mkModuleTypeDir "manifest.ts" false []];
     pd_manifest_ts := Loaded (Some (server_only ["main.ts"]));
     pd_manifest_json := LoadThrows (ModuleNotFound (manifest_json_path "alpha"));
     pd_server := {[ "main.ts" := registers "alpha" greet ]} |}.

(** [broken]: neither manifest loads. *)
Definition broken : PluginDir :=
  {| pd_name := "broken"; pd_isDirectory := true;
     pd_children := [mkModuleTypeDir "manifest.json" false []];
     pd_manifest_ts := LoadThrows (ModuleNotFound (manifest_ts_path "broken"));
     pd_manifest_json := LoadThrows (JSError "Unexpected token } in JSON");
     pd_server := ∅ |}.

(** [beta]: static manifest only, one server file that registers [beta]. *)
Definition beta : PluginDir :=
  {| pd_name := "beta"; pd_isDirectory := true;
     pd_children := [mkModuleTypeDir "server" true ["index.ts"];
                     mkModuleTypeDir "ui" true []];
     pd_manifest_ts := LoadThrows (ModuleNotFound (manifest_ts_path "beta"));
     pd_manifest_json := Loaded (Some (server_only ["index.ts"]));
     pd_server := {[ "index.ts" := registers "beta" other ]} |}.

(** [asleep]: a well-formed manifest whose [active] flag is false. *)
Definition asleep : PluginDir :=
  {| pd_name := "asleep"; pd_isDirectory := true;
     pd_children := [mkModuleTypeDir "server" true ["main.ts"];
                     mkModuleTypeDir "ui" true []];
     pd_manifest_ts :=
       Loaded (Some {| active := false;
                       manifest_plugins := Some {[ "server" := ModuleFiles ["main.ts"] ]} |});
     pd_manifest_json := LoadThrows (ModuleNotFound (manifest_json_path "asleep"));
     pd_server := {[ "main.ts" := registers "asleep" greet ]} |}.

(** [crash]: a well-formed, active plugin whose server module throws
    while it is loaded. *)
Definition crash : PluginDir :=
  {| pd_name := "crash"; pd_isDirectory := true;
     pd_children := [mkModuleTypeDir "server" true ["main.ts"]];
     pd_manifest_ts := Loaded (Some (server_only ["main.ts"]));
     pd_manifest_json := LoadThrows (ModuleNotFound (manifest_json_path "crash"));
     pd_server := {[ "main.ts" := LoadThrows (JSError "boom") ]} |}.

Definition settings : Config :=
  {| core_db := JS.Str "cassandra";
     config_plugins := {[ "alpha" := {[ "server" := [("greeting", JS.Str "hi")] ]} ]} |}.

Definition world_of (root : list PluginDir) : World :=
  {| config := settings; resource_name := "natuna"; plugin_root := root;
     banner := "Natuna Framework"; pkg_version := "1.4.0";
     remote_version := Some "1.4.0" |}.

(** A plugin folder with a malformed and an inactive plugin among two
    healthy ones. *)
Definition healthy : World := world_of [alpha; broken; beta; asleep].

(** A plugin folder whose second plugin fails to load its server
    module. *)
Definition failing : World := world_of [alpha; crash; beta].

(** A healthy plugin folder, and no answer from the remote repository. *)
Definition offline : World :=
  {| config := settings; resource_name := "natuna";
     plugin_root := [alpha; beta]; banner := "Natuna Framework";
     pkg_version := "1.4.0"; remote_version := None |}.

Definition descriptor_of (name file : string) (block : PluginConfig)
  : Descriptor :=
  {| d_name := name; d_file := Some file; d_config := Some block |}.

Definition alpha_main : Descriptor :=
  descriptor_of "alpha" "main.ts" [("greeting", JS.Str "hi")].
Definition crash_main : Descriptor := descriptor_of "crash" "main.ts" [].
Definition beta_index : Descriptor := descriptor_of "beta" "index.ts" [].

(** The states the initializer goes through in [failing]: after
    Discovery, after the turn of [alpha], and when the turn of [crash]
    throws. *)
Definition discovered : Server :=
  (_getPlugins failing "server"
     (record_effect (Logger "Intializing Server Plugins") new_Server)).1.
Definition after_alpha : Server :=
  (init_plugins failing 1 [alpha_main] discovered).1.
Definition at_crash : Server :=
  (init_plugin failing 2 crash_main after_alpha).1.

End Sample.

(* ===================================================================== *)
(** ** Client settings: [requestClientSettings] *)
(* ===================================================================== *)




(* ===================================================================== *)
(** ** Player admission: [playerConnecting] *)
(* ===================================================================== *)

Module Connecting.

(** What [this.players.utils.getIdentifiers(player)] returns, as far as
    the handler reads it; [None] is [undefined]. *)
Record Identifiers : Type := mkIdentifiers {
  license : option string;
  ip : option string;
}.

(** A record of a table. *)
Definition Row : Type := list (string * string).

(** Modelled from the spec: the storage drivers of [@server/database] are
    not part of the sources.  [findFirst] "returns the first matching
    record or an absent-value sentinel; never throws for not found"; it is
    given by table name and license.  [write] and [update] are recorded as
    events. *)
Record Env : Type := mkEnv {
  isWhitelisted : bool;               (* [this.config.core.isWhitelisted] *)
  identifiers : Identifiers;
  findFirst : string → string → option Row;
  now : string;                       (* [new Date().toLocaleString(...)] *)
}.

(** What the handler does, in order: calls on the [deferrals] object, a
    log line, and calls on the storage driver. *)
Inductive Event : Type :=
| Defer                                            (* [deferrals.defer()] *)
| Update (message : string)                        (* [deferrals.update(message)] *)
| Done (message : option string)                   (* [deferrals.done(message?)] *)
| Log (text : string)                              (* [this._logger(text)] *)
| FindFirst (table license : string)
| Write (table : string) (data : Row)
| UpdateWhere (table : string) (data : Row) (license : string).

(** [row[key]] *)
Definition field (key : string) (row : Row) : option string :=
  snd <$> List.find (λ kv, String.eqb kv.1 key) row.

Definition island : string :=
  String "240"%char (String "159"%char (String "143"%char
    (String "157"%char EmptyString))).
Definition tag : string := "[" +:+ island +:+ " Natuna] ".

Definition hello (name : string) : string :=
  tag +:+ "Hello " +:+ name +:+ "! Please wait until we verify your account.".
Definition invalid_license : string := tag +:+ "Your game license is invalid!".
Definition not_whitelisted : string := tag +:+ "You are not whitelisted!".
Definition finding_account : string :=
  tag +:+ "Finding your account in our database.".
Definition joining (name license : string) : string :=
  "Player " +:+ name +:+ " Joining the server. (License ID: " +:+ license +:+ ")".

(** [playerIds.license] when it is truthy. *)
Definition valid_license (ids : Identifiers) : option string :=
  match license ids with
  | Some EmptyString => None
  | Some l => Some l
  | None => None
  end.

(** From [deferrals.update("... Finding your account ...")] to the end. *)
Definition check_account (env : Env) (license : string) (before : list Event)
  : list Event * Completion unit :=
  let before := before ++ [Update finding_account; FindFirst "users" license] in
  let user := findFirst env "users" license in
  match ip (identifiers env) with
  | None =>
      (before,
       Throw (TypeError "Cannot read properties of undefined (reading 'toString')"))
  | Some last_ip =>
      let newCheckpointData := [("last_ip", last_ip); ("last_login", now env)] in
      match user with
      | None =>
          (before ++ [Write "users" (("license", license) :: newCheckpointData);
                      Done None], Normal tt)
      | Some _ =>
          let before := before ++ [FindFirst "ban_lists" license] in
          match findFirst env "ban_lists" license with
          | Some checkBanStatus =>
              (before ++ [Done (field "reason" checkBanStatus)], Normal tt)
          | None =>
              (before ++ [UpdateWhere "users" newCheckpointData license;
                          Done None], Normal tt)
          end
      end
  end.

(** The [playerConnecting] handler for a player called [name]. *)
Definition playerConnecting (env : Env) (name : string)
  : list Event * Completion unit :=
  let before := [Defer; Update (hello name)] in
  match valid_license (identifiers env) with
  | None => (before ++ [Done (Some invalid_license)], Normal tt)
  | Some license =>
      let before := before ++ [Log (joining name license)] in
      if isWhitelisted env then
        let before := before ++ [FindFirst "whitelist_lists" license] in
        match findFirst env "whitelist_lists" license with
        | None => (before ++ [Done (Some not_whitelisted)], Normal tt)
        | Some _ => check_account env license before
        end
      else check_account env license before
  end.

(** The decisions taken on the deferred connection, in order. *)
Definition decisions (trace : list Event) : list (option string) :=
  omap (λ e, match e with Done m => Some m | _ => None end) trace.

(** The tables the handler has read, written or updated, in order. *)
Definition tables (trace : list Event) : list string :=
  omap (λ e, match e with
             | FindFirst t _ | Write t _ | UpdateWhere t _ _ => Some t
             | _ => None
             end) trace.

(** The records written and the updates made, in order. *)
Definition changes (trace : list Event) : list Event :=
  List.filter (λ e, match e with
                    | Write _ _ | UpdateWhere _ _ _ => true
                    | _ => false
                    end) trace.

(** The player is let in when the one decision taken is [done()]. *)
Definition let_in (env : Env) (name : string) : Prop :=
  decisions (playerConnecting env name).1 = [None].

End Connecting.

(* ===================================================================== *)
(** ** Further notions for the properties *)
(* ===================================================================== *)

(** [preserves R m]: however [m] ends, the states before and after are
    related by [R]. *)
Definition preserves {A} (R : Server → Server → Prop) (m : M A) : Prop :=
  ∀ s s' r, m s = (s', r) → R s s'.

(** Registered commands stay as they are; the plugin tables are not
    touched. *)
Definition commands_kept (s s' : Server) : Prop :=
  (∀ name entry, commands s !! name = Some entry →
                 commands s' !! name = Some entry) ∧
  plugins s' = plugins s ∧ serverPlugins s' = serverPlugins s.

(** The names a call of [registerCommand] goes through. *)
Definition aliases (name : CommandName) : list string :=
  match name with
  | Name name => [name]
  | Aliases names => names
  end.

(** The manifest files Discovery requires for one plugin folder entry:
    the module, and the static document when the module throws. *)
Definition manifest_requires (w : World) (pluginName : string) : list string :=
  match pd_manifest_ts <$> find_plugin w pluginName with
  | Some (Loaded _) => [manifest_ts_path pluginName]
  | _ => [manifest_ts_path pluginName; manifest_json_path pluginName]
  end.

(** What requiring the server file of a Descriptor evaluates to. *)
Definition server_module (w : World) (plugin : Descriptor)
  : option (Load PluginModule) :=
  dir ← find_plugin w (d_name plugin);
  pd_server dir !! default "undefined" (d_file plugin).

(** Effects that neither are lifecycle events nor start a plugin. *)
Definition idle (e : Effect) : Prop := ¬ is_lifecycle e ∧ ¬ is_activation e.

Definition is_readdir (e : Effect) : Prop :=
  match e with ReadDir _ => True | _ => False end.

(** The three verdict lines of the version check. *)
Definition outdated_line (remote : string) : string :=
  esc +:+ "[31mYou are not using the latest version of Natuna Framework ("
      +:+ remote +:+ "), please update it!".
Definition invalid_line : string :=
  esc +:+ "[31mYou are not using a valid version version of Natuna Framework!".
Definition latest_line : string :=
  esc +:+ "[32mYou are using a latest version of Natuna Framework!".

(** Further sample inputs. *)
Module Scenario.

(** Two plugins whose entry handlers register the same server command. *)
Definition first : PluginDir :=
  {| pd_name := "first"; pd_isDirectory := true;
     pd_children := [mkModuleTypeDir "server" true ["main.ts"]];
     pd_manifest_ts := Loaded (Some (Sample.server_only ["main.ts"]));
     pd_manifest_json := LoadThrows (ModuleNotFound (manifest_json_path "first"));
     pd_server := {[ "main.ts" := Sample.registers "spawn" Sample.greet ]} |}.

Definition second : PluginDir :=
  {| pd_name := "second"; pd_isDirectory := true;
     pd_children := [mkModuleTypeDir "server" true ["main.ts"]];
     pd_manifest_ts := Loaded (Some (Sample.server_only ["main.ts"]));
     pd_manifest_json := LoadThrows (ModuleNotFound (manifest_json_path "second"));
     pd_server := {[ "main.ts" := Sample.registers "spawn" Sample.other ]} |}.

Definition clash : World := Sample.world_of [first; second].

Definition first_main : Descriptor := Sample.descriptor_of "first" "main.ts" [].
Definition second_main : Descriptor := Sample.descriptor_of "second" "main.ts" [].

Definition clash_discovered : Server :=
  (_getPlugins clash "server"
     (record_effect (Logger "Intializing Server Plugins") new_Server)).1.
Definition clash_after_first : Server :=
  (init_plugins clash 1 [first_main] clash_discovered).1.

(** A plugin with two server files. *)
Definition twin : PluginDir :=
  {| pd_name := "twin"; pd_isDirectory := true;
     pd_children := [mkModuleTypeDir "server" true ["a.ts"; "b.ts"];
                     mkModuleTypeDir "ui" true []];
     pd_manifest_ts := Loaded (Some (Sample.server_only ["a.ts"; "b.ts"]));
     pd_manifest_json := LoadThrows (ModuleNotFound (manifest_json_path "twin"));
     pd_server := {[ "a.ts" := Sample.registers "a" Sample.greet;
                     "b.ts" := Sample.registers "b" Sample.other ]} |}.

Definition twins : World := Sample.world_of [twin].
Definition twin_a : Descriptor := Sample.descriptor_of "twin" "a.ts" [].
Definition twin_b : Descriptor := Sample.descriptor_of "twin" "b.ts" [].
Definition twins_discovered : Server :=
  (_getPlugins twins "server"
     (record_effect (Logger "Intializing Server Plugins") new_Server)).1.

(** A plugin whose server module loads and whose handler registers a
    command and then throws. *)
Definition faulty : PluginDir :=
  {| pd_name := "faulty"; pd_isDirectory := true;
     pd_children := [mkModuleTypeDir "server" true ["main.ts"]];
     pd_manifest_ts := Loaded (Some (Sample.server_only ["main.ts"]));
     pd_manifest_json := LoadThrows (ModuleNotFound (manifest_json_path "faulty"));
     pd_server :=
       {[ "main.ts" :=
            Loaded {| _handler :=
                        Some [DoRegisterCommand (Name "half") Sample.greet [] false;
                              DoThrow (JSError "bad")] |} ]} |}.

Definition faulty_main : Descriptor := Sample.descriptor_of "faulty" "main.ts" [].
Definition faulty_module : PluginModule :=
  {| _handler := Some [DoRegisterCommand (Name "half") Sample.greet [] false;
                       DoThrow (JSError "bad")] |}.
Definition faults : World := Sample.world_of [faulty].

(** The states of the initializer in [Sample.healthy]: after Discovery and
    after the loop. *)
Definition healthy_discovered : Server :=
  (_getPlugins Sample.healthy "server"
     (record_effect (Logger "Intializing Server Plugins") new_Server)).1.
Definition healthy_started : Server :=
  (init_plugins Sample.healthy 1 [Sample.alpha_main; Sample.beta_index]
     healthy_discovered).1.

(** A plugin folder with nothing for the server. *)
Definition bare : World := Sample.world_of [Sample.broken; Sample.asleep].


(** A version text that does not start with a digit. *)
Definition prefixed : World :=
  {| config := Sample.settings; resource_name := "natuna"; plugin_root := [];
     banner := "Natuna Framework"; pkg_version := "v1.4.0";
     remote_version := Some "1.5.0" |}.


(** A storage in which the license [abc] has an account and is banned,
    and [new] is banned without having an account. *)
Definition storage (table license : string) : option Connecting.Row :=
  if String.eqb table "users" then
    if String.eqb license "abc" then Some [("license", "abc")] else None
  else if String.eqb table "ban_lists" then
    if String.eqb license "abc" || String.eqb license "new"
    then Some [("license", license); ("reason", "cheating")] else None
  else if String.eqb table "whitelist_lists" then
    if String.eqb license "abc" then Some [("license", "abc")] else None
  else None.

Definition env_of (whitelist : bool) (license ip : option string)
  : Connecting.Env :=
  {| Connecting.isWhitelisted := whitelist;
     Connecting.identifiers := Connecting.mkIdentifiers license ip;
     Connecting.findFirst := storage;
     Connecting.now := "1/1/2022, 12:00:00 AM" |}.

End Scenario.

(* ===================================================================== *)
(** ** The calls [db] makes outside the sources *)
(* ===================================================================== *)

(** [mysql.createConnection] and the constructors of the two driver
    classes belong to [mysql2] and [@server/database]; each of them can
    return or throw.  They are taken as given. *)
Record DriverLibrary (Connection Driver : Type) : Type := mkDriverLibrary {
  createConnection : JS.Value → Load Connection;
  new_MySQL : Connection → string → Load Driver;
  new_Cassandra : Load Driver;
}.
Arguments mkDriverLibrary {Connection Driver} _ _ _.
Arguments createConnection {Connection Driver} _ _.
Arguments new_MySQL {Connection Driver} _ _ _.
Arguments new_Cassandra {Connection Driver} _.

(** [db], with the outcome of each call it makes: [switch (typeof
    config.core.db) { case "cassandra": return new Cassandra(); case
    "mysql": default: return new
    MySQL(mysql.createConnection(this.config.core.db), table); }] *)
Definition db_with {Connection Driver} (lib : DriverLibrary Connection Driver)
    (config : Config) (table : string) : Load Driver :=
  let scrutinee := JS.typeof (core_db config) in
  if String.eqb scrutinee "cassandra" then new_Cassandra lib
  else
    match createConnection lib (core_db config) with
    | Loaded connection => new_MySQL lib connection table
    | LoadThrows e => LoadThrows e
    end.

(** The same library with another Cassandra constructor. *)
Definition with_Cassandra {Connection Driver} (outcome : Load Driver)
    (lib : DriverLibrary Connection Driver) : DriverLibrary Connection Driver :=
  {| createConnection := createConnection lib; new_MySQL := new_MySQL lib;
     new_Cassandra := outcome |}.

(** Text made of ASCII characters only; on such text [JS.toUpperCase]
    and the white space test of [parseInt] are those of the language. *)
Fixpoint is_ascii_text (s : string) : bool :=
  match s with
  | EmptyString => true
  | String c rest => (nat_of_ascii c <? 128)%nat && is_ascii_text rest
  end.

(* ===================================================================== *)
(** ** Player admission over a storage that can fail *)
(* ===================================================================== *)

Module Awaited.

Import Connecting.

(** Modelled from the spec: the storage drivers of [@server/database] are
    not part of the sources.  Their operations are asynchronous; [findFirst]
    answers with a record or with the absent value, [write] can fail (a
    duplicate key) and [update] can fail (nothing found); any of the three
    may also never answer.  Each call is given with the way it ends. *)
Record Storage : Type := mkStorage {
  on_findFirst : string → string → Completion (option Row);
  on_write : string → Row → Completion unit;
  on_update : string → Row → string → Completion unit;
}.

Record Host : Type := mkHost {
  whitelisting : bool;                (* [this.config.core.isWhitelisted] *)
  player : Identifiers;
  storage : Storage;
  clock : string;                     (* [new Date().toLocaleString(...)] *)
}.

(** [const a = await call; ...]: the handler goes on when the call
    answers; it rejects when the call rejects and waits for ever when the
    call never answers.  [before] is what has happened up to the call. *)
Definition await {A} (before : list Event) (call : Completion A)
    (next : A → list Event * Completion unit) : list Event * Completion unit :=
  match call with
  | Normal a => next a
  | Throw e => (before, Throw e)
  | Pending => (before, Pending)
  end.

(** From [deferrals.update("... Finding your account ...")] to the end. *)
Definition check_account_with (host : Host) (license : string)
    (before : list Event) : list Event * Completion unit :=
  let before := before ++ [Update finding_account; FindFirst "users" license] in
  await before (on_findFirst (storage host) "users" license) (λ user,
    match ip (player host) with
    | None =>
        (before,
         Throw (TypeError "Cannot read properties of undefined (reading 'toString')"))
    | Some last_ip =>
        let newCheckpointData := [("last_ip", last_ip); ("last_login", clock host)] in
        match user with
        | None =>
            let data := ("license", license) :: newCheckpointData in
            let before := before ++ [Write "users" data] in
            await before (on_write (storage host) "users" data) (λ _,
              (before ++ [Done None], Normal tt))
        | Some _ =>
            let before := before ++ [FindFirst "ban_lists" license] in
            await before (on_findFirst (storage host) "ban_lists" license)
              (λ checkBanStatus,
                match checkBanStatus with
                | Some checkBanStatus =>
                    (before ++ [Done (field "reason" checkBanStatus)], Normal tt)
                | None =>
                    let before :=
                      before ++ [UpdateWhere "users" newCheckpointData license] in
                    await before
                      (on_update (storage host) "users" newCheckpointData license)
                      (λ _, (before ++ [Done None], Normal tt))
                end)
        end
    end).

(** The [playerConnecting] handler for a player called [name]. *)
Definition playerConnecting_with (host : Host) (name : string)
  : list Event * Completion unit :=
  let before := [Defer; Update (hello name)] in
  match valid_license (player host) with
  | None => (before ++ [Done (Some invalid_license)], Normal tt)
  | Some license =>
      let before := before ++ [Log (joining name license)] in
      if whitelisting host then
        let before := before ++ [FindFirst "whitelist_lists" license] in
        await before (on_findFirst (storage host) "whitelist_lists" license)
          (λ checkWhitelistStatus,
            match checkWhitelistStatus with
            | None => (before ++ [Done (Some not_whitelisted)], Normal tt)
            | Some _ => check_account_with host license before
            end)
      else check_account_with host license before
  end.

(** A storage all of whose calls answer, [findFirst] as [env] says. *)
Definition answering (env : Env) : Host :=
  {| whitelisting := isWhitelisted env;
     player := identifiers env;
     storage := {| on_findFirst := λ table license,
                                     Normal (findFirst env table license);
                   on_write := λ _ _, Normal tt;
                   on_update := λ _ _ _, Normal tt |};
     clock := now env |}.

(** The license passes the gates that come before the account: it is
    valid and, when whitelisting is on, the whitelist answers with a
    record. *)
Definition passes_gates (host : Host) (license : string) : Prop :=
  valid_license (player host) = Some license ∧
  (whitelisting host = true →
   ∃ row, on_findFirst (storage host) "whitelist_lists" license
          = Normal (Some row)).

(** A host at which the license [new] has no account and the write of
    its record fails. *)
Definition duplicate_key : Host :=
  {| whitelisting := false;
     player := mkIdentifiers (Some "new") (Some "10.0.0.1");
     storage := {| on_findFirst := λ table license,
                                     Normal (Scenario.storage table license);
                   on_write := λ _ _, Throw (JSError "ER_DUP_ENTRY");
                   on_update := λ _ _ _, Normal tt |};
     clock := "1/1/2022, 12:00:00 AM" |}.

(** A host at which the license [kept] has an account and no ban
    record. *)
Definition returning : Host :=
  {| whitelisting := false;
     player := mkIdentifiers (Some "kept") (Some "10.0.0.2");
     storage := {| on_findFirst := λ table license,
                     if String.eqb table "users"
                     then Normal (Some [("license", license)])
                     else Normal None;
                   on_write := λ _ _, Normal tt;
                   on_update := λ _ _ _, Normal tt |};
     clock := "1/1/2022, 12:00:00 AM" |}.

End Awaited.

(* ===================================================================== *)
(** * Properties *)
(* ===================================================================== *)

(** ** Storage driver selection *)

Lemma typeof_not_backend_name (v : JS.Value) :
  JS.typeof v ≠ "cassandra" ∧ JS.typeof v ≠ "mysql".
Proof. by destruct v. Qed.

(** Whatever the configuration holds, [db] constructs the MySQL driver:
    [typeof] yields the name of a type, never the name of a backend. *)
Lemma db_always_MySQL (cfg : Config) (table : string) :
  db cfg table = MySQL (core_db cfg) table.
Proof.
  unfold db. destruct (typeof_not_backend_name (core_db cfg)) as [Hc _].
  apply String.eqb_neq in Hc. by rewrite Hc; destruct (String.eqb _ "mysql").
Qed.

(** C2, at the configuration whose backend selector is ["cassandra"]: the
    specification selects the Cassandra driver, and [db] constructs the
    MySQL driver instead. *)
Theorem db_cassandra_selector_constructs_MySQL :
  core_db Sample.settings = JS.Str "cassandra" ∧
  selected_driver_spec Sample.settings "users" = Cassandra ∧
  db Sample.settings "users" = MySQL (JS.Str "cassandra") "users".
Proof. repeat split. Qed.

(** ** Command registry *)

Section Registry.

Context (handler : Handler) (config : CommandConfig).

Lemma get_missing {A} (obj : gmap string A) (key : string) :
  JS.get obj key = JS.Missing ↔ obj !! key = None ∧ JS.inherited key = false.
Proof.
  unfold JS.get. destruct (obj !! key), (JS.inherited key);
    (split; [done || by intros _ | by intros [? ?]]).
Qed.

Lemma get_own {A} (obj : gmap string A) (key : string) (a : A) :
  obj !! key = Some a → JS.get obj key = JS.Own a.
Proof. unfold JS.get. by intros ->. Qed.

Lemma get_insert_ne {A} (obj : gmap string A) (k key : string) (a : A) :
  k ≠ key → JS.get (<[k := a]> obj) key = JS.get obj key.
Proof. intros. unfold JS.get. by rewrite lookup_insert_ne. Qed.

(** A fresh name is broadcast, then stored. *)
Lemma addCommand_fresh (isClientCommand : bool) (name : string) (s : Server) :
  JS.get (commands s) name = JS.Missing →
  addCommand handler config isClientCommand name s =
    (store_command name (mkCommand name handler config isClientCommand)
       (record_effect (describe name config) s), Normal tt).
Proof.
  intros Hget. unfold addCommand, bind, command_registered, gets. simpl.
  rewrite Hget. simpl. by rewrite ?Hget.
Qed.

(** A registered name stops a server registration before anything is
    done. *)
Lemma addCommand_registered_server (name : string) (s : Server) :
  JS.truthy (JS.get (commands s) name) = true →
  addCommand handler config false name s = (s, Throw (DuplicateCommand name)).
Proof.
  intros Hget. unfold addCommand, bind, command_registered, gets. simpl.
  rewrite Hget. simpl. by rewrite ?Hget.
Qed.

(** A registered name makes a client registration stop after the
    broadcast. *)
Lemma addCommand_registered_client (name : string) (s : Server) :
  JS.truthy (JS.get (commands s) name) = true →
  addCommand handler config true name s =
    (record_effect (describe name config) s, Normal tt).
Proof.
  intros Hget. unfold addCommand, bind, command_registered, gets. simpl.
  rewrite Hget. simpl. by rewrite ?Hget.
Qed.

Lemma commands_register_all c names s key :
  commands (register_all handler config c names s) !! key =
    if bool_decide (key ∈ names) then Some (mkCommand key handler config c)
    else commands s !! key.
Proof.
  revert s. induction names as [|a names IH] using rev_ind; intros s.
  - done.
  - unfold register_all in *. rewrite foldl_app. simpl.
    destruct (decide (a = key)) as [->|Hne].
    + rewrite lookup_insert_eq. rewrite bool_decide_eq_true_2; [done|set_solver].
    + rewrite lookup_insert_ne by done. rewrite IH.
      apply (f_equal (λ b : bool, if b then _ else _)).
      apply bool_decide_ext. rewrite elem_of_app, list_elem_of_singleton.
      split; [by intros ?; left | intros [?|?]; congruence || done].
Qed.

Lemma effects_register_all c names s :
  effects (register_all handler config c names s) =
    effects s ++ ((λ a, describe a config) <$> names).
Proof.
  revert s. induction names as [|a names IH]; intros s; simpl.
  - by rewrite app_nil_r.
  - unfold register_all in *. simpl. rewrite IH. simpl.
    by rewrite <- app_assoc.
Qed.

Lemma broadcasts_app t1 t2 : broadcasts (t1 ++ t2) = broadcasts t1 ++ broadcasts t2.
Proof. apply omap_app. Qed.

Lemma broadcasts_describe names :
  broadcasts ((λ a, describe a config) <$> names) = (λ a, (a, config)) <$> names.
Proof. induction names as [|a names IH]; [done|]. simpl. by f_equal. Qed.

(** Registering distinct fresh aliases goes through all of them. *)
Lemma for_of_addCommand_fresh c names s :
  NoDup names →
  (∀ a, a ∈ names → JS.get (commands s) a = JS.Missing) →
  for_of names (addCommand handler config c) s =
    (register_all handler config c names s, Normal tt).
Proof.
  revert s. induction names as [|a names IH]; intros s Hnd Hfresh; [done|].
  apply NoDup_cons in Hnd as [Ha Hnd]. simpl. unfold bind at 1.
  rewrite addCommand_fresh by (apply Hfresh; set_solver).
  rewrite IH; [done|done|]. intros b Hb. simpl.
  rewrite get_insert_ne by set_solver. apply Hfresh. set_solver.
Qed.

(** The loop of [registerCommand] stops at the first alias it cannot
    add, with everything done so far in place. *)
Lemma for_of_stops {A} (body : A → M unit) pre x post s s1 s2 e :
  for_of pre body s = (s1, Normal tt) →
  body x s1 = (s2, Throw e) →
  for_of (pre ++ x :: post) body s = (s2, Throw e).
Proof.
  revert s. induction pre as [|y pre IH]; intros s Hpre Hx; simpl in *.
  - injection Hpre as ->. unfold bind. by rewrite Hx.
  - unfold bind in *. destruct (body y s) as [s0 [[]| |]]; try done.
    by apply IH.
Qed.

End Registry.

(** C3 (as amended): when [name] is already in the command table, a
    client-originated [registerCommand] returns [true] and leaves the table,
    hence the existing entry and its handler, as it was; the description
    broadcast for [name], carrying the [config] of this call, is emitted all
    the same, because [emitNet] comes before the already-registered test. *)
Theorem registerCommand_client_existing
    (s : Server) (name : string) (entry : CommandWrapper)
    (handler : Handler) (config : CommandConfig) :
  commands s !! name = Some entry →
  ∃ s', registerCommand (Name name) handler config true s = (s', Normal true) ∧
        commands s' = commands s ∧
        commands s' !! name = Some entry ∧
        effects s' = effects s ++ [describe name config] ∧
        broadcasts (effects s') = broadcasts (effects s) ++ [(name, config)].
Proof.
  intros Hentry. exists (record_effect (describe name config) s).
  unfold registerCommand, bind.
  rewrite addCommand_registered_client by (by rewrite (get_own _ _ entry)).
  repeat split; try done. simpl. by rewrite broadcasts_app.
Qed.

Lemma registerCommand_client_existing_witness :
  ∃ s', registerCommand (Name "hello") Sample.other [] true Sample.with_hello
          = (s', Normal true) ∧
        commands s' = commands Sample.with_hello ∧
        commands s' !! "hello" = Some (mkCommand "hello" Sample.greet Sample.about false) ∧
        effects s' = effects Sample.with_hello ++ [describe "hello" []] ∧
        broadcasts (effects s') =
          broadcasts (effects Sample.with_hello) ++ [("hello", [])].
Proof.
  apply (registerCommand_client_existing Sample.with_hello "hello"
           (mkCommand "hello" Sample.greet Sample.about false)).
  reflexivity.
Defined.

(** C3 (as stated) fails: [hello] is registered, a client registers it
    again, the table is unchanged, and yet a description broadcast goes
    out. *)
Lemma client_duplicate_still_broadcasts :
  let s := Sample.with_hello in
  let s' := (registerCommand (Name "hello") Sample.other [] true s).1 in
  is_Some (commands s !! "hello") ∧
  commands s' = commands s ∧
  broadcasts (effects s) = [] ∧
  broadcasts (effects s') = [("hello", [])] ∧
  ¬ (broadcasts (effects s') = broadcasts (effects s)).
Proof. vm_compute. repeat split; eauto; discriminate. Qed.

(** C4: when [name] is already in the command table, a server-originated
    [registerCommand] for it, as a string or as a one-element array, throws
    the duplicate-command error to its caller and leaves the server exactly
    as it was, so the entry registered before is still the one in the
    table. *)
Theorem registerCommand_server_duplicate_throws
    (s : Server) (name : string) (entry : CommandWrapper)
    (handler : Handler) (config : CommandConfig) :
  commands s !! name = Some entry →
  registerCommand (Name name) handler config false s
    = (s, Throw (DuplicateCommand name)) ∧
  registerCommand (Aliases [name]) handler config false s
    = (s, Throw (DuplicateCommand name)) ∧
  commands (registerCommand (Name name) handler config false s).1 !! name
    = Some entry.
Proof.
  intros Hentry.
  assert (addCommand handler config false name s
          = (s, Throw (DuplicateCommand name))) as Hadd
    by (apply addCommand_registered_server; by rewrite (get_own _ _ entry)).
  unfold registerCommand, bind; simpl; unfold bind; rewrite Hadd. done.
Qed.

Lemma registerCommand_server_duplicate_throws_witness :
  registerCommand (Name "hello") Sample.other [] false Sample.with_hello
    = (Sample.with_hello, Throw (DuplicateCommand "hello")) ∧
  registerCommand (Aliases ["hello"]) Sample.other [] false Sample.with_hello
    = (Sample.with_hello, Throw (DuplicateCommand "hello")) ∧
  commands (registerCommand (Name "hello") Sample.other [] false
              Sample.with_hello).1 !! "hello"
    = Some (mkCommand "hello" Sample.greet Sample.about false).
Proof.
  apply (registerCommand_server_duplicate_throws Sample.with_hello "hello").
  reflexivity.
Defined.

(** X24: given an array of distinct alias names, none of which reads as
    registered (no entry in [this.commands], and not a member inherited
    from [Object.prototype]), [registerCommand] returns [true] and leaves
    one entry per alias, built from that alias and the one [handler] (and
    [config]) of the call; nothing else in the table changes, the table
    grows by the number of aliases, and one description broadcast per alias
    is emitted, in array order. *)
Theorem registerCommand_aliases_registers_each
    (s : Server) (names : list string) (handler : Handler)
    (config : CommandConfig) (isClientCommand : bool) :
  NoDup names →
  (∀ a, a ∈ names → JS.get (commands s) a = JS.Missing) →
  ∃ s', registerCommand (Aliases names) handler config isClientCommand s
          = (s', Normal true) ∧
        (∀ a, a ∈ names →
           commands s' !! a = Some (mkCommand a handler config isClientCommand) ∧
           cmd_handler <$> commands s' !! a = Some handler) ∧
        (∀ a, a ∉ names → commands s' !! a = commands s !! a) ∧
        size (commands s') = size (commands s) + length names ∧
        broadcasts (effects s') =
          broadcasts (effects s) ++ ((λ a, (a, config)) <$> names).
Proof.
  intros Hnd Hfresh.
  exists (register_all handler config isClientCommand names s).
  split; [|split; [|split; [|split]]].
  - unfold registerCommand, bind. by rewrite for_of_addCommand_fresh.
  - intros a Ha. rewrite commands_register_all.
    by rewrite bool_decide_eq_true_2.
  - intros a Ha. rewrite commands_register_all.
    by rewrite bool_decide_eq_false_2.
  - clear -Hnd Hfresh. revert s Hfresh.
    induction names as [|a names IH]; intros s Hfresh; simpl; [lia|].
    apply NoDup_cons in Hnd as [Ha Hnd]. unfold register_all in *. simpl.
    rewrite IH; [|done|].
    + simpl. rewrite map_size_insert_None; [lia|].
      apply get_missing, Hfresh. left.
    + intros b Hb. simpl. rewrite get_insert_ne.
      * apply Hfresh. by right.
      * intros ->. done.
  - rewrite effects_register_all, broadcasts_app. by rewrite broadcasts_describe.
Qed.

Lemma registerCommand_aliases_registers_each_witness :
  ∃ s', registerCommand (Aliases ["hi"; "hey"; "yo"]) Sample.greet Sample.about
          false Sample.with_hello = (s', Normal true) ∧
        (∀ a, a ∈ ["hi"; "hey"; "yo"] →
           commands s' !! a = Some (mkCommand a Sample.greet Sample.about false) ∧
           cmd_handler <$> commands s' !! a = Some Sample.greet) ∧
        (∀ a, a ∉ ["hi"; "hey"; "yo"] →
           commands s' !! a = commands Sample.with_hello !! a) ∧
        size (commands s') = size (commands Sample.with_hello) + 3 ∧
        broadcasts (effects s') =
          broadcasts (effects Sample.with_hello) ++
          [("hi", Sample.about); ("hey", Sample.about); ("yo", Sample.about)].
Proof.
  apply (registerCommand_aliases_registers_each Sample.with_hello
           ["hi"; "hey"; "yo"] Sample.greet Sample.about false).
  - apply (bool_decide_unpack _). vm_compute. exact I.
  - intros a Ha. apply get_missing. apply list_elem_of_In in Ha. simpl in Ha.
    destruct Ha as [<-|[<-|[<-|[]]]]; by vm_compute.
Defined.

(** C7, at the array [["toString"]] on a server that has no command at
    all: the alias is fresh and distinct, so the claim promises one entry
    for it, invoking the handler.  [this.commands] is a plain object and
    ["toString"] is a member it inherits from [Object.prototype], so the
    test "already registered" reads true: the call throws the
    duplicate-command error and creates no entry. *)
Theorem registerCommand_fresh_alias_rejected :
  NoDup ["toString"] ∧
  commands new_Server = ∅ ∧
  registerCommand (Aliases ["toString"]) Sample.greet Sample.about false
    new_Server = (new_Server, Throw (DuplicateCommand "toString")) ∧
  commands
    (registerCommand (Aliases ["toString"]) Sample.greet Sample.about false
       new_Server).1 !! "toString" = None ∧
  size
    (commands
       (registerCommand (Aliases ["toString"]) Sample.greet Sample.about false
          new_Server).1) = 0.
Proof.
  split; [apply (bool_decide_unpack _); vm_compute; exact I|].
  vm_compute. repeat split.
Qed.

(** C10: registering an alias array is not atomic.  When the aliases of
    [pre] are distinct and fresh and the alias [k] that follows them is
    already in the command table, a server-originated [registerCommand]
    throws the duplicate-command error for [k]; by then every alias of
    [pre] has its entry and its description broadcast, and they stay; the
    entry of [k] is the old one, and no other name has changed, so the
    aliases after [k] were not registered. *)
Theorem registerCommand_aliases_not_atomic
    (s : Server) (pre post : list string) (k : string) (entry : CommandWrapper)
    (handler : Handler) (config : CommandConfig) :
  NoDup pre →
  (∀ a, a ∈ pre → JS.get (commands s) a = JS.Missing) →
  commands s !! k = Some entry →
  ∃ s', registerCommand (Aliases (pre ++ k :: post)) handler config false s
          = (s', Throw (DuplicateCommand k)) ∧
        registerCommand (Aliases pre) handler config false s
          = (s', Normal true) ∧
        (∀ a, a ∈ pre →
           commands s' !! a = Some (mkCommand a handler config false)) ∧
        commands s' !! k = Some entry ∧
        (∀ a, a ∉ pre → commands s' !! a = commands s !! a) ∧
        broadcasts (effects s') =
          broadcasts (effects s) ++ ((λ a, (a, config)) <$> pre).
Proof.
  intros Hnd Hfresh Hk.
  assert (k ∉ pre) as Hkpre.
  { intros Hin. apply Hfresh, get_missing in Hin as [Hnone _]. congruence. }
  pose proof (for_of_addCommand_fresh handler config false pre s Hnd Hfresh)
    as Hpre.
  exists (register_all handler config false pre s).
  split; [|split; [|split; [|split; [|split]]]].
  - unfold registerCommand, bind.
    rewrite (for_of_stops _ pre k post s _
               (register_all handler config false pre s)
               (DuplicateCommand k) Hpre); [done|].
    apply addCommand_registered_server.
    erewrite get_own; [done|]. rewrite commands_register_all.
    by rewrite bool_decide_eq_false_2.
  - unfold registerCommand, bind. by rewrite Hpre.
  - intros a Ha. rewrite commands_register_all.
    by rewrite bool_decide_eq_true_2.
  - rewrite commands_register_all. by rewrite bool_decide_eq_false_2.
  - intros a Ha. rewrite commands_register_all.
    by rewrite bool_decide_eq_false_2.
  - rewrite effects_register_all, broadcasts_app. by rewrite broadcasts_describe.
Qed.

Lemma registerCommand_aliases_not_atomic_witness :
  ∃ s', registerCommand (Aliases (["hi"; "hey"] ++ "hello" :: ["yo"]))
          Sample.other [] false Sample.with_hello
          = (s', Throw (DuplicateCommand "hello")) ∧
        registerCommand (Aliases ["hi"; "hey"]) Sample.other [] false
          Sample.with_hello = (s', Normal true) ∧
        (∀ a, a ∈ ["hi"; "hey"] →
           commands s' !! a = Some (mkCommand a Sample.other [] false)) ∧
        commands s' !! "hello" = Some (mkCommand "hello" Sample.greet Sample.about false) ∧
        (∀ a, a ∉ ["hi"; "hey"] →
           commands s' !! a = commands Sample.with_hello !! a) ∧
        broadcasts (effects s') =
          broadcasts (effects Sample.with_hello) ++ [("hi", []); ("hey", [])].
Proof.
  apply (registerCommand_aliases_not_atomic Sample.with_hello ["hi"; "hey"]
           ["yo"] "hello" (mkCommand "hello" Sample.greet Sample.about false)
           Sample.other []).
  - apply (bool_decide_unpack _). vm_compute. exact I.
  - intros a Ha. apply get_missing. apply list_elem_of_In in Ha. simpl in Ha.
    destruct Ha as [<-|[<-|[]]]; by vm_compute.
  - reflexivity.
Defined.

(** ** Traces and completions *)

Section Traces.

Context (P : Effect → Prop).

Lemma grows_refl s : grows P s s.
Proof. repeat split. exists []. by rewrite app_nil_r. Qed.

Lemma grows_trans s1 s2 s3 : grows P s1 s2 → grows P s2 s3 → grows P s1 s3.
Proof.
  intros (Hp & Hm & Hc & t & Ht & HP) (Hp' & Hm' & Hc' & t' & Ht' & HP').
  repeat split; try congruence. exists (t ++ t').
  split; [by rewrite Ht', Ht, app_assoc | by apply Forall_app].
Qed.

Lemma grows_record e s s' : P e → grows P s s' → grows P s (record_effect e s').
Proof.
  intros He Hg. apply (grows_trans _ s'); [done|].
  repeat split. exists [e]. split; [done|]. by constructor.
Qed.

Lemma yields_ret {A} (a : A) : yields P (ret a) a.
Proof. intros s. exists s. split; [done | apply grows_refl]. Qed.

Lemma yields_effect e : P e → yields P (effect e) tt.
Proof.
  intros He s. exists (record_effect e s).
  split; [done | by apply grows_record, grows_refl].
Qed.

Lemma yields_bind {A B} (m : M A) (k : A → M B) a b :
  yields P m a → yields P (k a) b → yields P (bind m k) b.
Proof.
  intros Hm Hk s. destruct (Hm s) as (s1 & Hs1 & Hg1).
  destruct (Hk s1) as (s2 & Hs2 & Hg2). exists s2.
  split; [unfold bind; by rewrite Hs1 | by apply (grows_trans _ s1)].
Qed.

Lemma yields_try_catch {A} (body : M A) handler a :
  yields P body a → yields P (try_catch body handler) a.
Proof.
  intros Hm s. destruct (Hm s) as (s1 & Hs1 & Hg1). exists s1.
  split; [unfold try_catch; by rewrite Hs1 | done].
Qed.

Lemma fails_throw {A} e : fails P (@throw A e) e.
Proof. intros s. exists s. split; [done | apply grows_refl]. Qed.

Lemma fails_bind {A B} (m : M A) (k : A → M B) e :
  fails P m e → fails P (bind m k) e.
Proof.
  intros Hm s. destruct (Hm s) as (s1 & Hs1 & Hg1). exists s1.
  split; [unfold bind; by rewrite Hs1 | done].
Qed.

Lemma fails_after {A B} (m : M A) (k : A → M B) a e :
  yields P m a → fails P (k a) e → fails P (bind m k) e.
Proof.
  intros Hm Hk s. destruct (Hm s) as (s1 & Hs1 & Hg1).
  destruct (Hk s1) as (s2 & Hs2 & Hg2). exists s2.
  split; [unfold bind; by rewrite Hs1 | by apply (grows_trans _ s1)].
Qed.

Lemma yields_caught {A} (body : M A) handler e a :
  fails P body e → yields P (handler e) a → yields P (try_catch body handler) a.
Proof.
  intros Hm Hk s. destruct (Hm s) as (s1 & Hs1 & Hg1).
  destruct (Hk s1) as (s2 & Hs2 & Hg2). exists s2.
  split; [unfold try_catch; by rewrite Hs1 | by apply (grows_trans _ s1)].
Qed.

Lemma fails_caught {A} (body : M A) handler e e' :
  fails P body e → fails P (handler e) e' → fails P (try_catch body handler) e'.
Proof.
  intros Hm Hk s. destruct (Hm s) as (s1 & Hs1 & Hg1).
  destruct (Hk s1) as (s2 & Hs2 & Hg2). exists s2.
  split; [unfold try_catch; by rewrite Hs1 | by apply (grows_trans _ s1)].
Qed.

Lemma yields_when b m : yields P m tt → yields P (when b m) tt.
Proof. destruct b; [done | intros _; apply yields_ret]. Qed.

Lemma yields_for_of {A} (l : list A) body :
  (∀ x, yields P (body x) tt) → yields P (for_of l body) tt.
Proof.
  intros Hbody. induction l as [|x l IH]; simpl.
  - apply yields_ret.
  - by apply (yields_bind _ _ tt).
Qed.

Lemma emits_ret {A} (a : A) : emits P (ret a).
Proof. intros s s' r [= <- _]. exists []. by rewrite app_nil_r. Qed.

Lemma emits_throw {A} e : emits P (@throw A e).
Proof. intros s s' r [= <- _]. exists []. by rewrite app_nil_r. Qed.

Lemma emits_never {A} : emits P (@never A).
Proof. intros s s' r [= <- _]. exists []. by rewrite app_nil_r. Qed.

Lemma emits_gets {A} (f : Server → A) : emits P (gets f).
Proof. intros s s' r [= <- _]. exists []. by rewrite app_nil_r. Qed.

Lemma emits_effect e : P e → emits P (effect e).
Proof. intros He s s' r [= <- _]. exists [e]. split; [done | by constructor]. Qed.

Lemma emits_modify f : (∀ s, effects (f s) = effects s) → emits P (modify f).
Proof.
  intros Hf s s' r [= <- _]. exists []. by rewrite app_nil_r, Hf.
Qed.

Lemma emits_bind {A B} (m : M A) (k : A → M B) :
  emits P m → (∀ a, emits P (k a)) → emits P (bind m k).
Proof.
  intros Hm Hk s s' r. unfold bind.
  destruct (m s) as [s1 c] eqn:Hs1.
  destruct (Hm _ _ _ Hs1) as (t1 & Ht1 & HP1).
  destruct c as [a| |].
  - intros Hk'. destruct (Hk a _ _ _ Hk') as (t2 & Ht2 & HP2).
    exists (t1 ++ t2). split; [by rewrite Ht2, Ht1, app_assoc | by apply Forall_app].
  - intros [= <- _]. by exists t1.
  - intros [= <- _]. by exists t1.
Qed.

Lemma emits_try_catch {A} (body : M A) handler :
  emits P body → (∀ e, emits P (handler e)) → emits P (try_catch body handler).
Proof.
  intros Hm Hk s s' r. unfold try_catch.
  destruct (body s) as [s1 c] eqn:Hs1.
  destruct (Hm _ _ _ Hs1) as (t1 & Ht1 & HP1).
  destruct c as [a|e|].
  - intros [= <- _]. by exists t1.
  - intros Hk'. destruct (Hk e _ _ _ Hk') as (t2 & Ht2 & HP2).
    exists (t1 ++ t2). split; [by rewrite Ht2, Ht1, app_assoc | by apply Forall_app].
  - intros [= <- _]. by exists t1.
Qed.

Lemma emits_for_of {A} (l : list A) body :
  (∀ x, emits P (body x)) → emits P (for_of l body).
Proof.
  intros Hbody. induction l as [|x l IH]; simpl.
  - apply emits_ret.
  - by apply emits_bind.
Qed.

Lemma yields_emits {A} (m : M A) a : yields P m a → emits P m.
Proof.
  intros Hm s s' r Hs. destruct (Hm s) as (s1 & Hs1 & _ & _ & _ & Ht).
  rewrite Hs in Hs1. by injection Hs1 as <- _.
Qed.

End Traces.

Lemma emits_weaken {A} (P Q : Effect → Prop) (m : M A) :
  (∀ e, P e → Q e) → emits P m → emits Q m.
Proof.
  intros HPQ Hm s s' r Hs. destruct (Hm _ _ _ Hs) as (t & Ht & HP).
  exists t. split; [done|]. by apply (Forall_impl P).
Qed.

Lemma grows_weaken (P Q : Effect → Prop) s s' :
  (∀ e, P e → Q e) → grows P s s' → grows Q s s'.
Proof.
  intros HPQ (? & ? & ? & t & ? & ?). repeat split; try done.
  exists t. split; [done|]. by apply (Forall_impl P).
Qed.

Create HintDb trace discriminated.
#[local] Hint Resolve emits_ret emits_throw emits_never emits_gets emits_effect
  emits_modify emits_bind emits_try_catch emits_for_of : trace.
#[local] Hint Resolve yields_ret yields_effect yields_when yields_for_of
  yields_try_catch grows_refl grows_record : trace.
#[local] Hint Extern 1 (is_listing _) => exact I : trace.
#[local] Hint Extern 1 (is_module_load _) => exact I : trace.
#[local] Hint Extern 1 (is_broadcast _) => exact I : trace.
#[local] Hint Extern 1 (¬ is_lifecycle _) => (by intros []) : trace.

(** ** Plugin discovery *)

Section Discovery.

Context (w : World).

Lemma surface_test (T : string) :
  String.eqb T "CLIENT" || String.eqb T "SERVER"
  = bool_decide (T ∈ ["CLIENT"; "SERVER"]).
Proof.
  destruct (String.eqb_spec T "CLIENT") as [->|Hc]; [done|].
  destruct (String.eqb_spec T "SERVER") as [->|Hs]; [done|].
  symmetry. apply bool_decide_eq_false_2.
  intros [?|[?|?%elem_of_nil]%elem_of_cons]%elem_of_cons; done.
Qed.

Lemma nui_test (T : string) : String.eqb T "NUI" = bool_decide (T = "NUI").
Proof.
  destruct (String.eqb_spec T "NUI") as [->|Hc]; [done|].
  symmetry. by apply bool_decide_eq_false_2.
Qed.

Lemma plugin_config_default (pluginName type : string) :
  plugin_config (config w) pluginName type
  = default [] (config_plugins (config w) !! pluginName ≫= (.!! type)).
Proof.
  unfold plugin_config.
  destruct (config_plugins (config w) !! pluginName) as [m|]; [|done].
  simpl. by destruct (m !! type).
Qed.

Lemma scan_module_types_lists : yields is_listing (scan_module_types w) tt.
Proof. unfold scan_module_types. auto 10 with trace. Qed.

Lemma require_with_loaded {A} path (a : A) :
  yields is_module_load (require_with path (Some (Loaded a))) a.
Proof. unfold require_with. eapply yields_bind; auto with trace. Qed.

Lemma require_with_throws {A} path e :
  fails is_module_load (@require_with A path (Some (LoadThrows e))) e.
Proof.
  unfold require_with. eapply fails_after; [auto with trace|apply fails_throw].
Qed.

Lemma require_with_missing {A} path :
  fails is_module_load (@require_with A path None) (ModuleNotFound path).
Proof.
  unfold require_with. eapply fails_after; [auto with trace|apply fails_throw].
Qed.

(** The two-step manifest load ends the way [load_manifest] says. *)
Lemma require_manifest_loads (pluginName : string) :
  match load_manifest w pluginName with
  | Loaded v => yields is_module_load (require_manifest w pluginName) v
  | LoadThrows e => fails is_module_load (require_manifest w pluginName) e
  end.
Proof.
  unfold load_manifest, require_manifest, require_manifest_ts,
    require_manifest_json.
  destruct (find_plugin w pluginName) as [dir|]; simpl.
  - destruct (pd_manifest_ts dir) as [v|e].
    + apply yields_try_catch, require_with_loaded.
    + destruct (pd_manifest_json dir) as [v|e'].
      * eapply yields_caught; [apply require_with_throws|].
        apply require_with_loaded.
      * eapply fails_caught; [apply require_with_throws|].
        apply require_with_throws.
  - eapply fails_caught; apply require_with_missing.
Qed.

(** Handling a loaded manifest either extends the array by the
    Descriptors the manifest stands for, or throws where it stands for
    none. *)
Lemma scan_manifest_descriptors (type : string) (acc : list Descriptor)
    (pluginName : string) (manifest : option Manifest) :
  yields is_module_load (scan_manifest w type acc pluginName manifest)
    (acc ++ manifest_descriptors w type pluginName manifest) ∨
  (manifest_descriptors w type pluginName manifest = [] ∧
   ∃ e, fails is_module_load (scan_manifest w type acc pluginName manifest) e).
Proof.
  unfold scan_manifest, manifest_descriptors.
  rewrite surface_test, nui_test, plugin_config_default.
  destruct manifest as [manifest|]; [|rewrite app_nil_r; auto with trace].
  destruct (active manifest); simpl; [|rewrite app_nil_r; auto with trace].
  case_bool_decide.
  - destruct (manifest_plugins manifest) as [surfaces|]; simpl;
      [|rewrite app_nil_r; auto with trace].
    destruct (surfaces !! type) as [[files|]|]; simpl;
      rewrite ?app_nil_r; auto with trace.
    right. split; [done|]. eexists. apply fails_throw.
  - case_bool_decide; [|rewrite app_nil_r; auto with trace].
    unfold readdir_plugin, has_ui.
    destruct (find_plugin w pluginName) as [dir|]; simpl.
    + destruct (pd_isDirectory dir); simpl.
      * left. eapply yields_bind.
        { eapply yields_bind; auto with trace. }
        case_bool_decide; rewrite ?app_nil_r; auto with trace.
      * right. split; [done|]. eexists. apply fails_bind.
        eapply fails_after; [auto with trace | apply fails_throw].
    + right. split; [done|]. eexists. apply fails_bind.
      eapply fails_after; [auto with trace | apply fails_throw].
Qed.

(** One turn of the discovery loop: whatever happens inside the [try],
    the loop goes on with the array extended by the plugin's
    Descriptors, and nothing but module loads and directory reads has
    happened. *)
Lemma scan_plugin_caught (type : string) (acc : list Descriptor)
    (pluginName : string) :
  yields is_module_load
    (try_catch (scan_plugin w type acc pluginName) (λ _, ret acc))
    (acc ++ plugin_descriptors w type pluginName).
Proof.
  unfold scan_plugin, plugin_descriptors.
  pose proof (require_manifest_loads pluginName) as Hload.
  destruct (load_manifest w pluginName) as [v|e].
  - destruct (scan_manifest_descriptors type acc pluginName v)
      as [Hok|[-> [e He]]].
    + apply yields_try_catch. by eapply yields_bind.
    + rewrite app_nil_r. eapply yields_caught; [|apply yields_ret].
      by eapply fails_after.
  - rewrite app_nil_r. eapply yields_caught; [|apply yields_ret].
    by apply fails_bind.
Qed.

Lemma scan_plugins_descriptors (type : string) (names : list string)
    (acc : list Descriptor) :
  yields is_module_load (scan_plugins w type names acc)
    (acc ++ flat_map (plugin_descriptors w type) names).
Proof.
  revert acc. induction names as [|name names IH]; intros acc; simpl.
  - rewrite app_nil_r. apply yields_ret.
  - eapply yields_bind; [apply scan_plugin_caught|].
    rewrite app_assoc. apply IH.
Qed.

(** The inner [getPlugins] never throws and returns the Descriptors of
    the plugins, folder by folder in [readdir] order. *)
Lemma getPlugins_descriptors (type : string) :
  yields is_module_load (getPlugins w type)
    (flat_map (plugin_descriptors w type) (pd_name <$> plugin_root w)).
Proof.
  unfold getPlugins. eapply yields_bind; [auto with trace|].
  apply (scan_plugins_descriptors type _ []).
Qed.

(** A first call: nothing is cached, the list is computed and stored. *)
Lemma getPlugins_miss (type : string) (s : Server) :
  JS.get (plugins s) type = JS.Missing →
  let l := flat_map (plugin_descriptors w type) (pd_name <$> plugin_root w) in
  ∃ s', _getPlugins w type s = (s', Normal (PluginList l)) ∧
        plugins s' = <[type := l]> (plugins s) ∧
        serverPlugins s' = serverPlugins s ∧
        commands s' = commands s ∧
        ∃ t, effects s' = effects s ++ t ∧
             Forall (λ e, is_listing e ∨ is_module_load e) t.
Proof.
  intros Hmiss l. unfold _getPlugins, bind.
  destruct (scan_module_types_lists s) as (s1 & -> & Hp1 & Hm1 & Hc1 & t1 & Ht1 & HP1).
  unfold gets. rewrite Hp1, Hmiss.
  destruct (getPlugins_descriptors type s1)
    as (s2 & -> & Hp2 & Hm2 & Hc2 & t2 & Ht2 & HP2).
  simpl. eexists. split; [done|]. simpl.
  split; [by rewrite Hp2, Hp1|]. split; [congruence|]. split; [congruence|].
  exists (t1 ++ t2). split; [by rewrite Ht2, Ht1, app_assoc|].
  apply Forall_app. split; eapply Forall_impl; eauto.
Qed.


End Discovery.

Lemma flat_map_skip {A B} (f : A → list B) (keep : A → Prop)
    `{!∀ x, Decision (keep x)} (l : list A) :
  (∀ x, ¬ keep x → f x = []) →
  flat_map f l = flat_map f (filter keep l).
Proof.
  intros Hskip. induction l as [|x l IH]; [done|]. simpl.
  rewrite filter_cons. destruct (decide (keep x)) as [Hx|Hx]; simpl.
  - by rewrite IH.
  - by rewrite (Hskip x Hx).
Qed.

Lemma malformed_no_descriptors (w : World) (type pluginName : string) :
  malformed w pluginName = true → plugin_descriptors w type pluginName = [].
Proof.
  unfold malformed, plugin_descriptors.
  by destruct (load_manifest w pluginName).
Qed.

(** C5: on a first Discovery for a surface, whichever plugins have a
    manifest that fails to load in both forms, the call returns normally,
    and the list it returns is the concatenation, in folder order, of the
    Descriptors of the plugins whose manifest loads; a malformed plugin
    anywhere in the folder leaves the Descriptors of the plugins before and
    after it in place, and all the scan has done is list and load modules. *)
Theorem discovery_omits_malformed_plugins (w : World) (type : string) (s : Server) :
  JS.get (plugins s) type = JS.Missing →
  ∃ s' l t,
    _getPlugins w type s = (s', Normal (PluginList l)) ∧
    l = flat_map (plugin_descriptors w type)
          (filter (λ name, malformed w name = false) (pd_name <$> plugin_root w)) ∧
    (∀ pre bad post,
       pd_name <$> plugin_root w = pre ++ bad :: post →
       malformed w bad = true →
       l = flat_map (plugin_descriptors w type) pre ++
           flat_map (plugin_descriptors w type) post) ∧
    effects s' = effects s ++ t ∧
    Forall (λ e, is_listing e ∨ is_module_load e) t.
Proof.
  intros Hmiss.
  destruct (getPlugins_miss w type s Hmiss) as (s' & Hrun & _ & _ & _ & t & Ht & HP).
  exists s', (flat_map (plugin_descriptors w type) (pd_name <$> plugin_root w)), t.
  split; [done|]. split; [|split; [|done]].
  - apply flat_map_skip. intros name Hname.
    apply malformed_no_descriptors. by destruct (malformed w name).
  - intros pre bad post -> Hbad. rewrite flat_map_app. simpl.
    by rewrite (malformed_no_descriptors _ _ _ Hbad).
Qed.

Lemma discovery_omits_malformed_plugins_witness :
  ∃ s' l t,
    _getPlugins Sample.healthy "server" new_Server = (s', Normal (PluginList l)) ∧
    l = flat_map (plugin_descriptors Sample.healthy "server")
          (filter (λ name, malformed Sample.healthy name = false)
                  (pd_name <$> plugin_root Sample.healthy)) ∧
    (∀ pre bad post,
       pd_name <$> plugin_root Sample.healthy = pre ++ bad :: post →
       malformed Sample.healthy bad = true →
       l = flat_map (plugin_descriptors Sample.healthy "server") pre ++
           flat_map (plugin_descriptors Sample.healthy "server") post) ∧
    effects s' = effects new_Server ++ t ∧
    Forall (λ e, is_listing e ∨ is_module_load e) t.
Proof.
  apply (discovery_omits_malformed_plugins Sample.healthy "server" new_Server).
  reflexivity.
Defined.

Lemma plugin_descriptors_name (w : World) (type pluginName : string) d :
  d ∈ plugin_descriptors w type pluginName → d_name d = pluginName.
Proof.
  unfold plugin_descriptors, manifest_descriptors.
  destruct (load_manifest w pluginName) as [[m|]|]; try by intros ?%elem_of_nil.
  destruct (active m); simpl; [|by intros ?%elem_of_nil].
  repeat case_bool_decide; try by intros ?%elem_of_nil.
  - destruct (manifest_plugins m ≫= (.!! type)) as [[files|]|];
      try by intros ?%elem_of_nil.
    intros (file & -> & _)%list_elem_of_fmap. done.
  - destruct (has_ui w pluginName); [|by intros ?%elem_of_nil].
    by intros ->%list_elem_of_singleton.
Qed.

Lemma filter_keeps_all {A} (keep : A → Prop) `{!∀ x, Decision (keep x)} (l : list A) :
  (∀ x, x ∈ l → keep x) → filter keep l = l.
Proof.
  induction l as [|x l IH]; intros Hall; [done|].
  rewrite filter_cons_True by (apply Hall; left).
  f_equal. apply IH. intros y Hy. apply Hall. by right.
Qed.

Lemma filter_keeps_none {A} (keep : A → Prop) `{!∀ x, Decision (keep x)} (l : list A) :
  (∀ x, x ∈ l → ¬ keep x) → filter keep l = [].
Proof.
  induction l as [|x l IH]; intros Hall; [done|].
  rewrite filter_cons_False by (apply Hall; left).
  apply IH. intros y Hy. apply Hall. by right.
Qed.

(** Among the Descriptors of a folder without repeated names, those named
    after a plugin are that plugin's. *)
Lemma descriptors_of_plugin (w : World) (type pluginName : string)
    (names : list string) :
  NoDup names → pluginName ∈ names →
  filter (λ d, d_name d = pluginName) (flat_map (plugin_descriptors w type) names)
  = plugin_descriptors w type pluginName.
Proof.
  induction names as [|a names IH]; intros Hnd Hin; [by apply elem_of_nil in Hin|].
  apply NoDup_cons in Hnd as [Ha Hnd]. simpl. rewrite filter_app.
  destruct (decide (a = pluginName)) as [->|Hne].
  - rewrite filter_keeps_all by (intros d; apply plugin_descriptors_name).
    rewrite filter_keeps_none; [by rewrite app_nil_r|].
    intros d Hd Hname. apply list_elem_of_In, in_flat_map in Hd as (b & Hb & Hd).
    apply list_elem_of_In, plugin_descriptors_name in Hd.
    apply list_elem_of_In in Hb. congruence.
  - rewrite filter_keeps_none.
    + apply IH; [done|]. apply elem_of_cons in Hin as [?|?]; congruence.
    + intros d Hd%plugin_descriptors_name. congruence.
Qed.

(** C8: take a plugin folder (each name once) and a plugin in it whose
    manifest loads, and look at the Descriptors named after it in the list
    a first Discovery returns.  If the manifest's [active] flag is false
    there is none, whatever the surface.  If it is true and the surface is
    the server or the client one, there is exactly one per file of the
    manifest's list for that surface, in the order of the list, each with
    that file and with the block the global configuration holds for that
    plugin and surface, or the empty object when it holds none. *)
Theorem discovery_follows_manifest
    (w : World) (type : string) (s : Server) (pluginName : string)
    (manifest : Manifest) :
  JS.get (plugins s) type = JS.Missing →
  NoDup (pd_name <$> plugin_root w) →
  pluginName ∈ pd_name <$> plugin_root w →
  load_manifest w pluginName = Loaded (Some manifest) →
  ∃ s' l,
    _getPlugins w type s = (s', Normal (PluginList l)) ∧
    (active manifest = false → filter (λ d, d_name d = pluginName) l = []) ∧
    (active manifest = true →
     JS.toUpperCase type = "SERVER" ∨ JS.toUpperCase type = "CLIENT" →
     ∀ files,
       manifest_plugins manifest ≫= (.!! type) = Some (ModuleFiles files) →
       filter (λ d, d_name d = pluginName) l =
         (λ file,
            {| d_name := pluginName; d_file := Some file;
               d_config :=
                 Some (match config_plugins (config w) !! pluginName ≫= (.!! type) with
                       | Some block => block
                       | None => []
                       end) |}) <$> files).
Proof.
  intros Hmiss Hnd Hin Hload.
  destruct (getPlugins_miss w type s Hmiss) as (s' & Hrun & _).
  eexists _, _. split; [exact Hrun|].
  rewrite descriptors_of_plugin by done.
  unfold plugin_descriptors. rewrite Hload. unfold manifest_descriptors.
  split.
  - by intros ->.
  - intros -> Hsurface files ->. simpl.
    rewrite bool_decide_eq_true_2
      by (destruct Hsurface as [-> | ->]; repeat constructor).
    done.
Qed.

Lemma discovery_follows_manifest_witness :
  ∃ s' l,
    _getPlugins Sample.healthy "server" new_Server = (s', Normal (PluginList l)) ∧
    (active (Sample.server_only ["main.ts"]) = false →
     filter (λ d, d_name d = "alpha") l = []) ∧
    (active (Sample.server_only ["main.ts"]) = true →
     JS.toUpperCase "server" = "SERVER" ∨ JS.toUpperCase "server" = "CLIENT" →
     ∀ files,
       manifest_plugins (Sample.server_only ["main.ts"]) ≫= (.!! "server")
         = Some (ModuleFiles files) →
       filter (λ d, d_name d = "alpha") l =
         (λ file,
            {| d_name := "alpha"; d_file := Some file;
               d_config :=
                 Some (match config_plugins (config Sample.healthy) !! "alpha"
                             ≫= (.!! "server") with
                       | Some block => block
                       | None => []
                       end) |}) <$> files).
Proof.
  apply (discovery_follows_manifest Sample.healthy "server" new_Server "alpha"
           (Sample.server_only ["main.ts"])).
  - reflexivity.
  - apply (bool_decide_unpack _). vm_compute. exact I.
  - apply (bool_decide_unpack _). vm_compute. exact I.
  - reflexivity.
Defined.

Lemma required_listing (t : list Effect) : Forall is_listing t → required t = [].
Proof.
  induction 1 as [|e t He _ IH]; [done|]. by destruct e.
Qed.

Lemma required_app t1 t2 : required (t1 ++ t2) = required t1 ++ required t2.
Proof. apply omap_app. Qed.




(** ** Plugin initializer *)

Ltac emits_step :=
  match goal with
  | |- emits _ (bind _ _) => apply emits_bind; [|intros ?]
  | |- emits _ (ret _) => apply emits_ret
  | |- emits _ (throw _) => apply emits_throw
  | |- emits _ never => apply emits_never
  | |- emits _ (gets _) => apply emits_gets
  | |- emits _ (effect _) => apply emits_effect; auto with trace
  | |- emits _ (modify _) => apply emits_modify; intros ?; reflexivity
  | |- emits _ (try_catch _ _) => apply emits_try_catch; [|intros ?]
  | |- emits _ (for_of _ _) => apply emits_for_of; intros ?
  | |- emits _ (if ?b then _ else _) => destruct b
  | |- emits _ (match ?x with _ => _ end) => destruct x
  end.

#[local] Hint Extern 1 (quiet _) => (by intros []) : trace.

Section Effects.

(** [P] holds of every effect the operations below can have; it is
    instantiated with "is a broadcast" and with "is no lifecycle
    event". *)
Context (P : Effect → Prop).
Context (P_broadcast : ∀ e, is_broadcast e → P e).

Lemma addCommand_emits handler config isClientCommand name :
  emits P (addCommand handler config isClientCommand name).
Proof.
  unfold addCommand, command_registered, set_command.
  repeat emits_step; try by apply P_broadcast.
Qed.

Lemma registerCommand_emits name handler config isClientCommand :
  emits P (registerCommand name handler config isClientCommand).
Proof.
  unfold registerCommand. destruct name; repeat emits_step;
    apply addCommand_emits.
Qed.

Lemma run_action_emits action : emits P (run_action action).
Proof.
  unfold run_action. repeat emits_step. apply registerCommand_emits.
Qed.

Lemma run_actions_emit actions : emits P (for_of actions run_action).
Proof. emits_step. apply run_action_emits. Qed.

End Effects.

Lemma activated_app t1 t2 : activated (t1 ++ t2) = activated t1 ++ activated t2.
Proof. apply omap_app. Qed.

Lemma activated_broadcasts t : Forall is_broadcast t → activated t = [].
Proof. induction 1 as [|e t He _ IH]; [done|]. by destruct e. Qed.

Lemma required_broadcasts t : Forall is_broadcast t → required t = [].
Proof. induction 1 as [|e t He _ IH]; [done|]. by destruct e. Qed.

(** What one turn of the initializer loop leaves in the trace: the
    "Ensuring" line and the [require]; then, if the module loaded and has a
    handler, the handler call and the broadcasts of the commands it
    registered.  A turn that returns has called the handler. *)
Lemma init_plugin_trace (w : World) (count : nat) (d : Descriptor)
    (s s' : Server) (r : Completion unit) :
  init_plugin w count d s = (s', r) →
  ∃ t, effects s' =
         effects s ++
         Logger ("Ensuring Plugins: " +:+ pretty count +:+ ". " +:+ d_name d)
         :: Require (server_module_path d) :: t ∧
       ((t = [] ∧ ∃ e, r = Throw e) ∨
        (∃ t', t = InvokeHandler (d_name d) (d_config d) :: t' ∧
               Forall is_broadcast t')).
Proof.
  unfold init_plugin, require_server_module, require_with, bind, effect, modify.
  simpl.
  destruct (find_plugin w (d_name d) ≫= _) as [[m|e]|]; simpl.
  - unfold call_handler. destruct (_handler m) as [actions|]; simpl.
    + unfold bind, effect, modify. intros Hrun.
      destruct (run_actions_emit is_broadcast (λ _ H, H) actions _ _ _ Hrun)
        as (t' & Ht' & HP).
      eexists. split; [|right; eauto].
      rewrite Ht'. simpl. by rewrite <- !app_assoc.
    + intros [= <- <-]. exists []. split; [|left; eauto].
      simpl. by rewrite <- !app_assoc.
  - intros [= <- <-]. exists []. split; [|left; eauto].
    simpl. by rewrite <- !app_assoc.
  - intros [= <- <-]. exists []. split; [|left; eauto].
    simpl. by rewrite <- !app_assoc.
Qed.

(** Turns that all return have loaded and started every plugin, in
    order. *)
Lemma init_plugins_all (w : World) (l : list Descriptor) (count : nat)
    (s s' : Server) :
  init_plugins w count l s = (s', Normal tt) →
  activated (effects s') = activated (effects s) ++ (d_name <$> l) ∧
  required (effects s') = required (effects s) ++ (server_module_path <$> l).
Proof.
  revert count s. induction l as [|d l IH]; intros count s; simpl.
  - intros [= <-]. by rewrite !app_nil_r.
  - unfold bind. destruct (init_plugin w count d s) as [s1 [[]| |]] eqn:Hd;
      try done.
    intros Hrest. destruct (IH _ _ Hrest) as [Ha Hr].
    destruct (init_plugin_trace _ _ _ _ _ _ Hd)
      as (t & Ht & [[_ [e He]]|(t' & -> & HP)]); [done|].
    rewrite Ha, Hr, Ht, activated_app, required_app. simpl.
    rewrite (activated_broadcasts _ HP), (required_broadcasts _ HP).
    by rewrite <- !app_assoc.
Qed.

(** The loop stops at the first turn that throws. *)
Lemma init_plugins_stops (w : World) (pre post : list Descriptor)
    (d : Descriptor) (count : nat) (s sk s2 : Server) (e : Error) :
  init_plugins w count pre s = (sk, Normal tt) →
  init_plugin w (count + length pre) d sk = (s2, Throw e) →
  init_plugins w count (pre ++ d :: post) s = (s2, Throw e).
Proof.
  revert count s. induction pre as [|p pre IH]; intros count s; simpl.
  - intros [= <-]. rewrite Nat.add_0_r. unfold bind. by intros ->.
  - unfold bind. destruct (init_plugin w count p s) as [s1 [[]| |]]; try done.
    intros Hpre Hd. apply IH; [done|].
    by replace (S count + length pre) with (count + S (length pre)) by lia.
Qed.

(** When every turn returns, every plugin of the list has been loaded and
    started, in Discovery order, and the initializer returns. *)
Lemma initializer_starts_all (w : World) (s s1 s2 : Server) (l : list Descriptor) :
  _getPlugins w "server" (record_effect (Logger "Intializing Server Plugins") s)
    = (s1, Normal (PluginList l)) →
  init_plugins w 1 l s1 = (s2, Normal tt) →
  _initServerPlugins w s
    = (record_effect (Logger "Server Plugins Ready!") s2, Normal tt) ∧
  activated (effects s2) = activated (effects s1) ++ (d_name <$> l).
Proof.
  intros Hget Hloop. split; [|by apply (init_plugins_all w l 1)].
  unfold _initServerPlugins, bind, effect, modify. simpl.
  by rewrite Hget, Hloop.
Qed.

(** C1 (as amended): the initializer does not isolate failures.  Let
    Discovery hand it the list [pre ++ d :: post]; if the turns of [pre]
    all return and loading or starting [d] throws [e], then
    [_initServerPlugins] throws [e] to its caller in the state the failing
    turn left.  The plugins of [pre] have been loaded and started, in
    order; of [d] at most the handler call has happened; the modules of
    [post] were never required, so none of them is started: the activated
    plugins are those before the first failure, not all but the failed
    ones. *)
Theorem initializer_stops_at_first_failure
    (w : World) (s s1 sk s2 : Server) (pre post : list Descriptor)
    (d : Descriptor) (e : Error) :
  _getPlugins w "server" (record_effect (Logger "Intializing Server Plugins") s)
    = (s1, Normal (PluginList (pre ++ d :: post))) →
  init_plugins w 1 pre s1 = (sk, Normal tt) →
  init_plugin w (1 + length pre) d sk = (s2, Throw e) →
  _initServerPlugins w s = (s2, Throw e) ∧
  activated (effects sk) = activated (effects s1) ++ (d_name <$> pre) ∧
  (activated (effects s2) = activated (effects sk) ∨
   activated (effects s2) = activated (effects sk) ++ [d_name d]) ∧
  required (effects s2) =
    required (effects s1) ++ (server_module_path <$> pre ++ [d]).
Proof.
  intros Hget Hpre Hd.
  destruct (init_plugins_all _ _ _ _ _ Hpre) as [Ha Hr].
  destruct (init_plugin_trace _ _ _ _ _ _ Hd) as (t & Ht & Hshape).
  split; [|split; [done|split]].
  - unfold _initServerPlugins, bind, effect, modify. simpl.
    by rewrite Hget, (init_plugins_stops w pre post d 1 s1 sk s2 e Hpre Hd).
  - rewrite Ht, activated_app. simpl.
    destruct Hshape as [[-> _]|(t' & -> & HP)].
    + left. by rewrite app_nil_r.
    + right. simpl. by rewrite (activated_broadcasts _ HP).
  - rewrite Ht, required_app, Hr, fmap_app. simpl.
    destruct Hshape as [[-> _]|(t' & -> & HP)]; simpl;
      rewrite ?(required_broadcasts _ HP); by rewrite <- app_assoc.
Qed.

Lemma initializer_stops_at_first_failure_witness :
  _initServerPlugins Sample.failing new_Server
    = (Sample.at_crash, Throw (JSError "boom")) ∧
  activated (effects Sample.after_alpha) =
    activated (effects Sample.discovered) ++ (d_name <$> [Sample.alpha_main]) ∧
  (activated (effects Sample.at_crash) = activated (effects Sample.after_alpha) ∨
   activated (effects Sample.at_crash) =
     activated (effects Sample.after_alpha) ++ [d_name Sample.crash_main]) ∧
  required (effects Sample.at_crash) =
    required (effects Sample.discovered) ++
    (server_module_path <$> [Sample.alpha_main] ++ [Sample.crash_main]).
Proof.
  apply (initializer_stops_at_first_failure Sample.failing new_Server
           Sample.discovered Sample.after_alpha Sample.at_crash
           [Sample.alpha_main] [Sample.beta_index] Sample.crash_main
           (JSError "boom")).
  - vm_compute. reflexivity.
  - vm_compute. reflexivity.
  - vm_compute. reflexivity.
Defined.

(** C1 (as stated) fails: Discovery finds three active server plugins,
    the second one throws while its module loads; the initializer throws,
    the third plugin is never loaded or started, and one plugin is
    activated, not three minus the failed one. *)
Lemma initializer_failure_is_not_isolated :
  let run := _initServerPlugins Sample.failing new_Server in
  plugins run.1 !! "server"
    = Some [Sample.alpha_main; Sample.crash_main; Sample.beta_index] ∧
  run.2 = Throw (JSError "boom") ∧
  activated (effects run.1) = ["alpha"] ∧
  serverPlugins run.1 !! "beta" = None ∧
  (server_module_path Sample.beta_index ∉ required (effects run.1)) ∧
  length (activated (effects run.1)) ≠ 3 - 1.
Proof.
  vm_compute. repeat split; try done.
  intros Hin. apply list_elem_of_In in Hin. simpl in Hin.
  repeat (destruct Hin as [Hin|Hin]; [discriminate Hin|]). done.
Qed.

(** ** Lifecycle *)

Lemma lifecycle_app t1 t2 : lifecycle (t1 ++ t2) = lifecycle t1 ++ lifecycle t2.
Proof. apply omap_app. Qed.

Lemma lifecycle_quiet t : Forall quiet t → lifecycle t = [].
Proof.
  induction 1 as [|e t He _ IH]; [done|].
  destruct e; try done. by destruct He.
Qed.

Lemma quiet_broadcast e : is_broadcast e → quiet e.
Proof. by destruct e; intros ? ?. Qed.

Section Quiet.

Context (w : World).

Lemma checkPackageVersion_quiet : emits quiet (_checkPackageVersion w).
Proof.
  unfold _checkPackageVersion, version_verdict. repeat emits_step.
Qed.

Lemma scan_plugins_quiet type names acc :
  emits quiet (scan_plugins w type names acc).
Proof.
  revert acc. induction names as [|name names IH]; intros acc; simpl.
  - apply emits_ret.
  - apply emits_bind; [|done].
    unfold scan_plugin, require_manifest, require_manifest_ts,
      require_manifest_json, scan_manifest, readdir_plugin, require_with.
    repeat emits_step.
Qed.

Lemma getPlugins_quiet type : emits quiet (_getPlugins w type).
Proof.
  unfold _getPlugins, getPlugins, set_plugins.
  apply emits_bind.
  { eapply emits_weaken; [|eapply yields_emits, scan_module_types_lists].
    intros e He Hl. by destruct e. }
  intros _. repeat emits_step. apply scan_plugins_quiet.
Qed.

Lemma init_plugins_quiet count l : emits quiet (init_plugins w count l).
Proof.
  revert count. induction l as [|d l IH]; intros count; simpl.
  - apply emits_ret.
  - apply emits_bind; [|done].
    unfold init_plugin, require_server_module, require_with,
      set_serverPlugin, call_handler.
    repeat emits_step. apply run_action_emits, quiet_broadcast.
Qed.

Lemma initServerPlugins_quiet : emits quiet (_initServerPlugins w).
Proof.
  unfold _initServerPlugins. emits_step. emits_step.
  apply emits_bind; [apply getPlugins_quiet|].
  intros [l|key]; repeat emits_step. apply init_plugins_quiet.
Qed.

End Quiet.

(** The start handler, by the way its two awaited calls end. *)
Lemma onServerResourceStart_own (w : World) (s : Server) :
  onServerResourceStart w (resource_name w) s =
    match _checkPackageVersion w
            (record_effect (ConsoleLog (banner w))
               (record_effect (TriggerServerEvent starting) s)) with
    | (checked, Normal _) =>
        match _initServerPlugins w
                (record_effect (Logger "Starting Server...")
                   (record_effect (TriggerServerEvent initializing) checked)) with
        | (initialized, Normal _) =>
            (record_effect (Logger "Server Ready!")
               (record_effect (TriggerServerEvent ready) initialized), Normal tt)
        | (initialized, Throw e) => (initialized, Throw e)
        | (initialized, Pending) => (initialized, Pending)
        end
    | (checked, Throw e) => (checked, Throw e)
    | (checked, Pending) => (checked, Pending)
    end.
Proof.
  unfold onServerResourceStart. rewrite String.eqb_refl.
  unfold triggerServerEvent, bind, effect, modify. simpl.
  destruct (_checkPackageVersion w _) as [checked [b|e|]]; reflexivity.
Qed.

(** C6 (as amended): on a start signal carrying the process's own
    resource name, the lifecycle events emitted are [starting], then
    [initializing], then [ready], cut short where the handler stops: the
    events emitted are always one of [starting], [starting; initializing]
    and [starting; initializing; ready], and they are all three exactly when
    the handler returns.  It returns exactly when the version check
    settles and the plugin initializer returns; the banner and the version
    check then lie between [starting] and [initializing], and the run of
    the plugin initializer between [initializing] and [ready].
    A stop signal with that name emits [stopped]; signals carrying another
    name emit nothing. *)
Theorem lifecycle_events_in_order (w : World) (s : Server) :
  (∃ p,
     lifecycle (effects (onServerResourceStart w (resource_name w) s).1)
       = lifecycle (effects s) ++ p ∧
     (p = [starting] ∨ p = [starting; initializing] ∨
      p = [starting; initializing; ready]) ∧
     ((onServerResourceStart w (resource_name w) s).2 = Normal tt
      ↔ p = [starting; initializing; ready])) ∧
  ((onServerResourceStart w (resource_name w) s).2 = Normal tt ↔
   ∃ checked initialized b,
     _checkPackageVersion w
       (record_effect (ConsoleLog (banner w))
          (record_effect (TriggerServerEvent starting) s))
       = (checked, Normal b) ∧
     _initServerPlugins w
       (record_effect (Logger "Starting Server...")
          (record_effect (TriggerServerEvent initializing) checked))
       = (initialized, Normal tt) ∧
     (onServerResourceStart w (resource_name w) s).1
       = record_effect (Logger "Server Ready!")
           (record_effect (TriggerServerEvent ready) initialized)) ∧
  onServerResourceStop w (resource_name w) s
    = (record_effect (TriggerServerEvent stopped) s, Normal tt) ∧
  (∀ other, other ≠ resource_name w →
     onServerResourceStart w other s = (s, Normal tt) ∧
     onServerResourceStop w other s = (s, Normal tt)).
Proof.
  rewrite onServerResourceStart_own.
  destruct (_checkPackageVersion w _) as [checked c1] eqn:Hcheck.
  destruct (checkPackageVersion_quiet w _ _ _ Hcheck) as (tv & Htv & Hqv).
  simpl in Htv.
  assert (lifecycle (effects checked) = lifecycle (effects s) ++ [starting]) as Hlv.
  { rewrite Htv, !lifecycle_app, (lifecycle_quiet _ Hqv). simpl.
    by rewrite !app_nil_r. }
  assert (∀ other, other ≠ resource_name w →
            onServerResourceStart w other s = (s, Normal tt) ∧
            onServerResourceStop w other s = (s, Normal tt)) as Hother.
  { intros other Hother. apply String.eqb_neq in Hother.
    unfold onServerResourceStart, onServerResourceStop.
    rewrite String.eqb_sym in Hother. by rewrite Hother. }
  assert (onServerResourceStop w (resource_name w) s
          = (record_effect (TriggerServerEvent stopped) s, Normal tt)) as Hstop.
  { unfold onServerResourceStop. by rewrite String.eqb_refl. }
  destruct c1 as [b|e|]; simpl.
  2,3: (split; [|split; [|done]]);
         [exists [starting]; split; [done|]; split; [by left|]; by split
         |split; [done | by intros (? & ? & ? & [= _ ?] & _)]].
  destruct (_initServerPlugins w _) as [initialized c2] eqn:Hinit.
  destruct (initServerPlugins_quiet w _ _ _ Hinit) as (ti & Hti & Hqi).
  simpl in Hti.
  assert (lifecycle (effects initialized)
          = lifecycle (effects s) ++ [starting; initializing]) as Hli.
  { rewrite Hti, !lifecycle_app, (lifecycle_quiet _ Hqi), Hlv. simpl.
    by rewrite !app_nil_r, <- app_assoc. }
  destruct c2 as [[]|e|]; simpl.
  2,3: (split; [|split; [|done]]);
         [exists [starting; initializing]; split; [done|]; split;
            [by right; left|]; by split
         |split; [done|];
          intros (? & ? & ? & [= <- _] & Hinit' & _);
          rewrite Hinit in Hinit'; by injection Hinit'].
  split; [|split; [|done]].
  - exists [starting; initializing; ready].
    split; [|split; [by right; right|done]].
    rewrite !lifecycle_app, Hli. simpl. by rewrite app_nil_r, <- app_assoc.
  - split; [intros _; by exists checked, initialized, b | done].
Qed.

(** C6 (as stated) fails: with a plugin whose server module throws while
    loading, the start handler throws after [initializing]; [ready] is
    never emitted. *)
Lemma start_with_failing_plugin_skips_ready :
  let run := onServerResourceStart Sample.failing (resource_name Sample.failing)
               new_Server in
  run.2 = Throw (JSError "boom") ∧
  lifecycle (effects run.1) = [starting; initializing] ∧
  (ready ∉ lifecycle (effects run.1)) ∧
  lifecycle (effects run.1) ≠ [starting; initializing; ready].
Proof.
  vm_compute. repeat split; try done.
  intros Hin. apply list_elem_of_In in Hin. simpl in Hin.
  repeat (destruct Hin as [Hin|Hin]; [discriminate Hin|]). done.
Qed.

(** ** Sample runs *)

(** A start in the healthy folder goes through the whole sequence and
    activates the two active, well-formed plugins. *)
Example healthy_start :
  let run := onServerResourceStart Sample.healthy "natuna" new_Server in
  run.2 = Normal tt ∧
  lifecycle (effects run.1) = [starting; initializing; ready] ∧
  activated (effects run.1) = ["alpha"; "beta"] ∧
  plugins run.1 !! "server" = Some [Sample.alpha_main; Sample.beta_index] ∧
  (cmd_handler <$> commands run.1 !! "alpha") = Some Sample.greet ∧
  (cmd_handler <$> commands run.1 !! "beta") = Some Sample.other.
Proof. vm_compute. repeat split. Qed.

(** Without an answer from the remote repository the start handler never
    gets past the version check. *)
Example offline_start :
  let run := onServerResourceStart Sample.offline "natuna" new_Server in
  run.2 = Pending ∧ lifecycle (effects run.1) = [starting].
Proof. vm_compute. repeat split. Qed.

(** An inactive plugin has no Descriptor on any surface; the [ui] surface
    lists the active plugins that have a [ui] folder. *)
Example healthy_surfaces :
  (_getPlugins Sample.healthy "client" new_Server).2 = Normal (PluginList []) ∧
  (_getPlugins Sample.healthy "nui" new_Server).2
    = Normal (PluginList [mkDescriptor "beta" None None]) ∧
  (_getPlugins Sample.healthy "server" new_Server).2
    = Normal (PluginList [Sample.alpha_main; Sample.beta_index]).
Proof. vm_compute. repeat split. Qed.

(** A name that [Object.prototype] answers to reads as registered. *)
Example inherited_name_reads_as_registered :
  registerCommand (Name "toString") Sample.greet [] false new_Server
    = (new_Server, Throw (DuplicateCommand "toString")) ∧
  (_getPlugins Sample.healthy "constructor" new_Server).2
    = Normal (InheritedMember "constructor").
Proof. vm_compute. repeat split. Qed.

(** [parseInt] on version texts. *)
Example parseInt_versions :
  parseInt (remove_dots "1.4.0") = Some 140%Z ∧
  parseInt (remove_dots "1.10.2-beta") = Some 1102%Z ∧
  parseInt "0x1f" = Some 31%Z ∧
  parseInt " -12" = Some (-12)%Z ∧
  parseInt "v1" = None.
Proof. vm_compute. repeat split. Qed.

(* ===================================================================== *)
(** * Further properties *)
(* ===================================================================== *)

(** ** Storage driver selection *)

(** X1: whatever value the configuration holds under [core.db], [db]
    takes the MySQL branch: it calls [mysql.createConnection] on that value
    and, when that returns a connection, constructs the MySQL driver on it
    for the table asked for; when [createConnection] throws, [db] throws
    the same error.  The Cassandra constructor is never called: what it
    would return or throw makes no difference to [db]. *)
Theorem db_never_calls_Cassandra {Connection Driver : Type}
    (lib : DriverLibrary Connection Driver) (cfg : Config) (table : string) :
  db_with lib cfg table =
    match createConnection lib (core_db cfg) with
    | Loaded connection => new_MySQL lib connection table
    | LoadThrows e => LoadThrows e
    end ∧
  ∀ outcome, db_with (with_Cassandra outcome lib) cfg table = db_with lib cfg table.
Proof.
  assert (∀ lib' : DriverLibrary Connection Driver,
    db_with lib' cfg table =
      match createConnection lib' (core_db cfg) with
      | Loaded connection => new_MySQL lib' connection table
      | LoadThrows e => LoadThrows e
      end) as Hbranch.
  { intros lib'. unfold db_with.
    destruct (typeof_not_backend_name (core_db cfg)) as [Hc _].
    apply String.eqb_neq in Hc. by rewrite Hc. }
  split; [apply Hbranch|]. intros outcome. by rewrite !Hbranch.
Qed.

(** ** Command registry *)

Lemma commands_kept_refl s : commands_kept s s.
Proof. by repeat split. Qed.

Lemma commands_kept_trans s1 s2 s3 :
  commands_kept s1 s2 → commands_kept s2 s3 → commands_kept s1 s3.
Proof.
  intros (H1 & Hp1 & Hm1) (H2 & Hp2 & Hm2). repeat split; try congruence.
  intros name entry Hentry. by apply H2, H1.
Qed.

Lemma preserves_bind {A B} (R : Server → Server → Prop) (m : M A) (k : A → M B) :
  (∀ s1 s2 s3, R s1 s2 → R s2 s3 → R s1 s3) →
  preserves R m → (∀ a, preserves R (k a)) → preserves R (bind m k).
Proof.
  intros Htrans Hm Hk s s' r. unfold bind.
  destruct (m s) as [s1 [a|e|]] eqn:Hs1.
  - intros Hrun. eapply Htrans; [by eapply Hm | by eapply Hk].
  - intros [= <- _]. by eapply Hm.
  - intros [= <- _]. by eapply Hm.
Qed.

Lemma preserves_for_of {A} (R : Server → Server → Prop) (l : list A) body :
  (∀ s, R s s) → (∀ s1 s2 s3, R s1 s2 → R s2 s3 → R s1 s3) →
  (∀ x, preserves R (body x)) → preserves R (for_of l body).
Proof.
  intros Hrefl Htrans Hbody. induction l as [|x l IH]; simpl.
  - intros s s' r [= <- _]. apply Hrefl.
  - by apply preserves_bind.
Qed.

Lemma addCommand_keeps handler config isClientCommand name :
  preserves commands_kept (addCommand handler config isClientCommand name).
Proof.
  intros s s' r.
  destruct (JS.truthy (JS.get (commands s) name)) eqn:Hreg.
  - destruct isClientCommand.
    + rewrite addCommand_registered_client by done.
      intros [= <- _]. by repeat split.
    + rewrite addCommand_registered_server by done.
      intros [= <- _]. apply commands_kept_refl.
  - assert (JS.get (commands s) name = JS.Missing) as Hget
      by (by destruct (JS.get (commands s) name)).
    rewrite addCommand_fresh by done. intros [= <- _].
    repeat split. intros k entry Hentry. simpl.
    apply get_missing in Hget as [Hnone _].
    rewrite lookup_insert_ne; [done | congruence].
Qed.

Lemma registerCommand_keeps name handler config isClientCommand :
  preserves commands_kept (registerCommand name handler config isClientCommand).
Proof.
  unfold registerCommand. apply preserves_bind.
  - apply commands_kept_trans.
  - destruct name.
    + apply addCommand_keeps.
    + apply preserves_for_of;
        [apply commands_kept_refl | apply commands_kept_trans |].
      intros x. apply addCommand_keeps.
  - intros _ s s' r [= <- _]. apply commands_kept_refl.
Qed.

(** X2: no call of [registerCommand], whatever its arguments and however
    it ends, replaces or removes a command that was registered before it,
    and none touches the plugin cache or the table of server plugins: the
    first registrant of a name keeps it. *)
Theorem registerCommand_never_overwrites
    (name : CommandName) (handler : Handler) (config : CommandConfig)
    (isClientCommand : bool) (s s' : Server) (r : Completion bool)
    (existing : string) (entry : CommandWrapper) :
  registerCommand name handler config isClientCommand s = (s', r) →
  commands s !! existing = Some entry →
  commands s' !! existing = Some entry ∧
  plugins s' = plugins s ∧ serverPlugins s' = serverPlugins s.
Proof.
  intros Hrun Hentry.
  destruct (registerCommand_keeps _ _ _ _ _ _ _ Hrun) as (Hkept & Hp & Hm).
  auto.
Qed.

Lemma registerCommand_never_overwrites_witness :
  commands
    (registerCommand (Aliases ["hi"; "hello"; "yo"]) Sample.other [] true
       Sample.with_hello).1 !! "hello"
    = Some (mkCommand "hello" Sample.greet Sample.about false) ∧
  plugins
    (registerCommand (Aliases ["hi"; "hello"; "yo"]) Sample.other [] true
       Sample.with_hello).1 = plugins Sample.with_hello ∧
  serverPlugins
    (registerCommand (Aliases ["hi"; "hello"; "yo"]) Sample.other [] true
       Sample.with_hello).1 = serverPlugins Sample.with_hello.
Proof.
  apply (registerCommand_never_overwrites (Aliases ["hi"; "hello"; "yo"])
           Sample.other [] true Sample.with_hello _
           (registerCommand (Aliases ["hi"; "hello"; "yo"]) Sample.other []
              true Sample.with_hello).2).
  - by destruct (registerCommand _ _ _ _ _).
  - reflexivity.
Defined.

Lemma addCommand_client handler config name s :
  ∃ s', addCommand handler config true name s = (s', Normal tt) ∧
        effects s' = effects s ++ [describe name config].
Proof.
  destruct (JS.truthy (JS.get (commands s) name)) eqn:Hreg.
  - rewrite addCommand_registered_client by done. by eexists.
  - rewrite addCommand_fresh by (by destruct (JS.get (commands s) name)).
    by eexists.
Qed.

(** X3: a client-originated [registerCommand] never throws: for a name
    or for any array of aliases, fresh, registered or repeated, it returns
    [true], and it emits one description broadcast per alias, in order. *)
Theorem registerCommand_client_never_throws
    (name : CommandName) (handler : Handler) (config : CommandConfig)
    (s : Server) :
  ∃ s', registerCommand name handler config true s = (s', Normal true) ∧
        broadcasts (effects s') =
          broadcasts (effects s) ++ ((λ a, (a, config)) <$> aliases name).
Proof.
  assert (∀ names s,
    ∃ s', for_of names (addCommand handler config true) s = (s', Normal tt) ∧
          effects s' = effects s ++ ((λ a, describe a config) <$> names))
    as Hloop.
  { intros names. induction names as [|a names IH]; intros s0; simpl.
    - exists s0. by rewrite app_nil_r.
    - destruct (addCommand_client handler config a s0) as (s1 & Hs1 & He1).
      destruct (IH s1) as (s2 & Hs2 & He2). exists s2.
      unfold bind. rewrite Hs1, Hs2. split; [done|].
      by rewrite He2, He1, <- app_assoc. }
  destruct name as [name|names]; simpl.
  - destruct (addCommand_client handler config name s) as (s1 & Hs1 & He1).
    exists s1. unfold registerCommand, bind. rewrite Hs1. split; [done|].
    by rewrite He1, broadcasts_app.
  - destruct (Hloop names s) as (s1 & Hs1 & He1).
    exists s1. unfold registerCommand, bind. rewrite Hs1. split; [done|].
    by rewrite He1, broadcasts_app, broadcasts_describe.
Qed.

(** X4: a name that every object inherits from [Object.prototype], such
    as [toString] or [constructor], reads as registered although the table
    has no entry for it: a server registration of it throws the duplicate
    error and changes nothing, a client registration returns [true], and in
    both cases the command table is as before, so such a name can never
    become a command. *)
Theorem inherited_name_cannot_be_registered
    (name : string) (handler : Handler) (config : CommandConfig) (s : Server) :
  JS.inherited name = true →
  registerCommand (Name name) handler config false s
    = (s, Throw (DuplicateCommand name)) ∧
  ∃ s', registerCommand (Name name) handler config true s = (s', Normal true) ∧
        commands s' = commands s.
Proof.
  intros Hinh.
  assert (JS.truthy (JS.get (commands s) name) = true) as Hreg.
  { unfold JS.get. destruct (commands s !! name); [done|]. by rewrite Hinh. }
  split.
  - unfold registerCommand, bind. by rewrite addCommand_registered_server.
  - eexists. unfold registerCommand, bind.
    rewrite addCommand_registered_client by done. done.
Qed.

Lemma inherited_name_cannot_be_registered_witness :
  registerCommand (Name "constructor") Sample.greet [] false new_Server
    = (new_Server, Throw (DuplicateCommand "constructor")) ∧
  ∃ s', registerCommand (Name "constructor") Sample.greet [] true new_Server
          = (s', Normal true) ∧
        commands s' = commands new_Server.
Proof.
  apply (inherited_name_cannot_be_registered "constructor" Sample.greet []
           new_Server).
  reflexivity.
Defined.

Lemma get_missing_insert {A} (obj : gmap string A) (k key : string) (a : A) :
  JS.get (<[k := a]> obj) key = JS.Missing → k ≠ key ∧ JS.get obj key = JS.Missing.
Proof.
  intros Hget. destruct (decide (k = key)) as [->|Hne].
  - unfold JS.get in Hget. by rewrite lookup_insert_eq in Hget.
  - split; [done|]. by rewrite get_insert_ne in Hget.
Qed.

(** X5: a server-originated registration of an alias array returns
    exactly when the aliases are pairwise distinct and none of them reads
    as registered; in every other case it throws the duplicate error of one
    of the aliases. *)
Theorem registerCommand_server_succeeds_iff
    (names : list string) (handler : Handler) (config : CommandConfig)
    (s : Server) :
  ((∃ s', registerCommand (Aliases names) handler config false s
            = (s', Normal true))
   ↔ NoDup names ∧ ∀ a, a ∈ names → JS.get (commands s) a = JS.Missing) ∧
  ((∃ s', registerCommand (Aliases names) handler config false s
            = (s', Normal true)) ∨
   (∃ s' k, k ∈ names ∧
            registerCommand (Aliases names) handler config false s
              = (s', Throw (DuplicateCommand k)))).
Proof.
  assert (∀ names s,
    (∃ s', for_of names (addCommand handler config false) s = (s', Normal tt) ∧
           NoDup names ∧ ∀ a, a ∈ names → JS.get (commands s) a = JS.Missing) ∨
    (∃ s' k, k ∈ names ∧
             for_of names (addCommand handler config false) s
               = (s', Throw (DuplicateCommand k)))) as Hloop.
  { clear names s. intros names.
    induction names as [|a names IH]; intros s; simpl.
    - left. exists s. split; [done|]. split; [constructor|].
      by intros a ?%elem_of_nil.
    - unfold bind.
      destruct (JS.truthy (JS.get (commands s) a)) eqn:Hreg.
      + right. rewrite addCommand_registered_server by done.
        exists s, a. split; [left|done].
      + assert (JS.get (commands s) a = JS.Missing) as Hmiss
          by (by destruct (JS.get (commands s) a)).
        rewrite addCommand_fresh by done.
        destruct (IH (store_command a (mkCommand a handler config false)
                        (record_effect (describe a config) s)))
          as [(s' & Hs' & Hnd & Hfresh)|(s' & k & Hk & Hs')].
        * left. exists s'. split; [done|]. split.
          -- constructor; [|done]. intros Ha.
             apply Hfresh, get_missing_insert in Ha as [? _]. done.
          -- intros b [->|Hb]%elem_of_cons; [done|].
             by apply Hfresh, get_missing_insert in Hb as [_ ?].
        * right. exists s', k. split; [by right|done]. }
  split.
  - split.
    + intros (s' & Hrun). unfold registerCommand, bind in Hrun.
      destruct (Hloop names s) as [(s1 & Hs1 & Hok)|(s1 & k & _ & Hs1)];
        [done|]. by rewrite Hs1 in Hrun.
    + intros [Hnd Hfresh]. eexists. unfold registerCommand, bind.
      by rewrite for_of_addCommand_fresh.
  - destruct (Hloop names s) as [(s1 & Hs1 & _)|(s1 & k & Hk & Hs1)].
    + left. exists s1. unfold registerCommand, bind. by rewrite Hs1.
    + right. exists s1, k. split; [done|].
      unfold registerCommand, bind. by rewrite Hs1.
Qed.

(** ** Plugin discovery *)

Lemma getPlugins_inherited (w : World) (type : string) (s : Server) :
  plugins s !! type = None → JS.inherited type = true →
  ∃ s', _getPlugins w type s = (s', Normal (InheritedMember type)) ∧
        grows is_listing s s'.
Proof.
  intros Hnone Hinh. unfold _getPlugins, bind.
  destruct (scan_module_types_lists w s) as (s1 & -> & Hg).
  unfold gets, JS.get. destruct Hg as (Hp1 & Hg).
  rewrite Hp1, Hnone, Hinh. eexists. split; [done|]. by split.
Qed.




(** X7: on the UI surface (a [type] that reads [NUI] in upper case), an
    active plugin whose manifest loads has exactly one Descriptor, holding
    its name only, when its entry in the plugin folder is a directory with
    an entry called [ui], and none otherwise; the manifest's file lists
    play no part. *)
Theorem discovery_ui_surface
    (w : World) (type : string) (s : Server) (pluginName : string)
    (dir : PluginDir) (manifest : Manifest) :
  JS.get (plugins s) type = JS.Missing →
  JS.toUpperCase type = "NUI" →
  NoDup (pd_name <$> plugin_root w) →
  pluginName ∈ pd_name <$> plugin_root w →
  find_plugin w pluginName = Some dir →
  load_manifest w pluginName = Loaded (Some manifest) →
  active manifest = true →
  ∃ s' l,
    _getPlugins w type s = (s', Normal (PluginList l)) ∧
    filter (λ d, d_name d = pluginName) l =
      if pd_isDirectory dir && bool_decide ("ui" ∈ mt_name <$> pd_children dir)
      then [{| d_name := pluginName; d_file := None; d_config := None |}]
      else [].
Proof.
  intros Hmiss Hnui Hnd Hin Hdir Hload Hactive.
  destruct (getPlugins_miss w type s Hmiss) as (s' & Hrun & _).
  eexists _, _. split; [exact Hrun|].
  rewrite descriptors_of_plugin by done.
  unfold plugin_descriptors. rewrite Hload. unfold manifest_descriptors, has_ui.
  by rewrite Hactive, Hnui, Hdir.
Qed.

Lemma discovery_ui_surface_witness :
  ∃ s' l,
    _getPlugins Sample.healthy "nui" new_Server = (s', Normal (PluginList l)) ∧
    filter (λ d, d_name d = "beta") l =
      if pd_isDirectory Sample.beta
         && bool_decide ("ui" ∈ mt_name <$> pd_children Sample.beta)
      then [{| d_name := "beta"; d_file := None; d_config := None |}]
      else [].
Proof.
  apply (discovery_ui_surface Sample.healthy "nui" new_Server "beta" Sample.beta
           (Sample.server_only ["index.ts"])).
  - reflexivity.
  - reflexivity.
  - apply (bool_decide_unpack _). vm_compute. exact I.
  - apply (bool_decide_unpack _). vm_compute. exact I.
  - reflexivity.
  - reflexivity.
  - reflexivity.
Defined.

(** X8: for a surface name written in ASCII that in upper case is none
    of [CLIENT], [SERVER] and [NUI], a first Discovery returns the empty
    list, whatever the plugins declare, and caches it. *)
Theorem discovery_unknown_surface (w : World) (type : string) (s : Server) :
  is_ascii_text type = true →
  JS.get (plugins s) type = JS.Missing →
  JS.toUpperCase type ∉ ["CLIENT"; "SERVER"; "NUI"] →
  ∃ s', _getPlugins w type s = (s', Normal (PluginList [])) ∧
        plugins s' !! type = Some [].
Proof.
  intros _ Hmiss Hunknown.
  destruct (getPlugins_miss w type s Hmiss) as (s' & Hrun & Hp & _).
  assert (∀ names, flat_map (plugin_descriptors w type) names = []) as Hnone.
  { intros names. induction names as [|name names IH]; [done|].
    simpl. rewrite IH, app_nil_r.
    unfold plugin_descriptors, manifest_descriptors.
    destruct (load_manifest w name) as [[m|]|]; try done.
    destruct (active m); simpl; [|done].
    rewrite bool_decide_eq_false_2.
    - rewrite bool_decide_eq_false_2; [done|].
      intros Heq. apply Hunknown. rewrite Heq. by do 2 right; left.
    - intros [Heq|[Heq|Heq%elem_of_nil]%elem_of_cons]%elem_of_cons; [| |done];
        apply Hunknown; rewrite Heq; [left | right; left]. }
  simpl in Hrun, Hp. rewrite Hnone in Hrun, Hp. exists s'. split; [done|].
  rewrite Hp. apply lookup_insert_eq.
Qed.

Lemma discovery_unknown_surface_witness :
  ∃ s', _getPlugins Sample.healthy "ui" new_Server = (s', Normal (PluginList [])) ∧
        plugins s' !! "ui" = Some [].
Proof.
  apply (discovery_unknown_surface Sample.healthy "ui" new_Server).
  - reflexivity.
  - reflexivity.
  - apply (bool_decide_unpack _). vm_compute. exact I.
Defined.

(** X9: for a surface name that every object inherits from
    [Object.prototype] and that has no cached list, Discovery returns the
    inherited member instead of a list; it loads no manifest and caches
    nothing, on this call and on every later one. *)
Theorem discovery_inherited_surface (w : World) (type : string) (s : Server) :
  plugins s !! type = None → JS.inherited type = true →
  ∃ s', _getPlugins w type s = (s', Normal (InheritedMember type)) ∧
        plugins s' = plugins s ∧
        required (effects s') = required (effects s).
Proof.
  intros Hnone Hinh.
  destruct (getPlugins_inherited w type s Hnone Hinh)
    as (s' & Hrun & Hp & _ & _ & t & Ht & HP).
  exists s'. split; [done|]. split; [done|].
  by rewrite Ht, required_app, (required_listing t HP), app_nil_r.
Qed.

Lemma discovery_inherited_surface_witness :
  ∃ s', _getPlugins Sample.healthy "constructor" new_Server
          = (s', Normal (InheritedMember "constructor")) ∧
        plugins s' = plugins new_Server ∧
        required (effects s') = required (effects new_Server).
Proof.
  apply (discovery_inherited_surface Sample.healthy "constructor" new_Server);
    reflexivity.
Defined.

Lemma required_readdir (t : list Effect) : Forall is_readdir t → required t = [].
Proof. induction 1 as [|e t He _ IH]; [done|]. by destruct e. Qed.

Lemma scan_manifest_reads_only (w : World) type acc pluginName manifest :
  emits is_readdir (scan_manifest w type acc pluginName manifest).
Proof.
  unfold scan_manifest, readdir_plugin. repeat emits_step; exact I.
Qed.

(** The two-step manifest load requires the module, and the static
    document exactly when the module throws. *)
Lemma require_manifest_requires (w : World) (pluginName : string) (s : Server) :
  ∃ s' c, require_manifest w pluginName s = (s', c) ∧
          effects s' = effects s ++ (Require <$> manifest_requires w pluginName).
Proof.
  unfold require_manifest, require_manifest_ts, require_manifest_json,
    require_with, manifest_requires, try_catch, bind, effect, modify, ret, throw.
  destruct (find_plugin w pluginName) as [dir|]; simpl.
  - destruct (pd_manifest_ts dir) as [v|e]; simpl; [by eexists _, _|].
    destruct (pd_manifest_json dir) as [v|e']; simpl;
      eexists _, _; (split; [done|]); simpl; by rewrite <- app_assoc.
  - eexists _, _. split; [done|]. simpl. by rewrite <- app_assoc.
Qed.

Lemma required_requires (paths : list string) : required (Require <$> paths) = paths.
Proof. induction paths as [|p paths IH]; [done|]. simpl. by f_equal. Qed.

Lemma scan_plugin_requires (w : World) type acc pluginName s s' r :
  try_catch (scan_plugin w type acc pluginName) (λ _, ret acc) s = (s', r) →
  required (effects s') = required (effects s) ++ manifest_requires w pluginName.
Proof.
  unfold scan_plugin, try_catch, bind.
  destruct (require_manifest_requires w pluginName s) as (s1 & c & -> & He1).
  assert (required (effects s1)
          = required (effects s) ++ manifest_requires w pluginName) as Hr1
    by (by rewrite He1, required_app, required_requires).
  destruct c as [manifest|e|].
  - destruct (scan_manifest w type acc pluginName manifest s1) as [s2 c2] eqn:Hs2.
    destruct (scan_manifest_reads_only _ _ _ _ _ _ _ _ Hs2) as (t & Ht & HP).
    assert (required (effects s2) = required (effects s1)) as Hr2
      by (by rewrite Ht, required_app, (required_readdir t HP), app_nil_r).
    destruct c2; intros [= <- _]; congruence.
  - by intros [= <- _].
  - by intros [= <- _].
Qed.

Lemma scan_plugins_requires (w : World) type names acc s s' r :
  scan_plugins w type names acc s = (s', r) →
  required (effects s') = required (effects s) ++ flat_map (manifest_requires w) names.
Proof.
  revert acc s. induction names as [|name names IH]; intros acc s; simpl.
  - intros [= <- _]. by rewrite app_nil_r.
  - unfold bind.
    destruct (scan_plugin_caught w type acc name s) as (s1 & Hs1 & _).
    rewrite Hs1. intros Hrest.
    rewrite (IH _ _ Hrest), (scan_plugin_requires _ _ _ _ _ _ _ Hs1).
    by rewrite <- app_assoc.
Qed.

(** X10: the manifest files a first Discovery requires are, entry by
    entry of the plugin folder in [readdir] order, the manifest module of
    the entry, followed by its static manifest document exactly when the
    module does not load; once a manifest module has loaded, even to a falsy
    value, the static document of that plugin is not consulted. *)
Theorem discovery_requires_manifests (w : World) (type : string) (s : Server) :
  JS.get (plugins s) type = JS.Missing →
  ∃ s' l,
    _getPlugins w type s = (s', Normal (PluginList l)) ∧
    required (effects s') =
      required (effects s) ++
      flat_map (manifest_requires w) (pd_name <$> plugin_root w).
Proof.
  intros Hmiss.
  destruct (getPlugins_miss w type s Hmiss) as (s' & Hrun & _).
  eexists s', _. split; [exact Hrun|].
  unfold _getPlugins, bind in Hrun.
  destruct (scan_module_types_lists w s) as (s1 & Hs1 & Hp1 & _ & _ & t1 & Ht1 & HP1).
  rewrite Hs1 in Hrun. unfold gets in Hrun. rewrite Hp1, Hmiss in Hrun.
  unfold getPlugins, bind, effect, modify in Hrun. simpl in Hrun.
  destruct (scan_plugins w type _ [] _) as [s2 c2] eqn:Hs2.
  apply scan_plugins_requires in Hs2. simpl in Hs2.
  destruct c2 as [a|e|]; [|done|done].
  unfold ret in Hrun. injection Hrun as <- _. simpl.
  rewrite Hs2, Ht1, !required_app, (required_listing t1 HP1). simpl.
  by rewrite !app_nil_r.
Qed.

Lemma discovery_requires_manifests_witness :
  ∃ s' l,
    _getPlugins Sample.healthy "server" new_Server = (s', Normal (PluginList l)) ∧
    required (effects s') =
      required (effects new_Server) ++
      flat_map (manifest_requires Sample.healthy)
               (pd_name <$> plugin_root Sample.healthy).
Proof.
  apply (discovery_requires_manifests Sample.healthy "server" new_Server).
  reflexivity.
Defined.

(** ** Plugin initializer *)

(** X11: when Discovery hands the initializer a list and every turn of
    the loop returns, [_initServerPlugins] returns after logging "Server
    Plugins Ready!", and the plugins whose handlers were called are exactly
    those of the list, in Discovery order. *)
Theorem initializer_starts_every_plugin
    (w : World) (s s1 s2 : Server) (l : list Descriptor) :
  _getPlugins w "server" (record_effect (Logger "Intializing Server Plugins") s)
    = (s1, Normal (PluginList l)) →
  init_plugins w 1 l s1 = (s2, Normal tt) →
  _initServerPlugins w s
    = (record_effect (Logger "Server Plugins Ready!") s2, Normal tt) ∧
  activated (effects s2) = activated (effects s1) ++ (d_name <$> l) ∧
  required (effects s2) = required (effects s1) ++ (server_module_path <$> l).
Proof.
  intros Hget Hloop. split; [|by apply (init_plugins_all w l 1)].
  unfold _initServerPlugins, bind, effect, modify. simpl.
  by rewrite Hget, Hloop.
Qed.

Lemma initializer_starts_every_plugin_witness :
  _initServerPlugins Sample.healthy new_Server
    = (record_effect (Logger "Server Plugins Ready!") Scenario.healthy_started,
       Normal tt) ∧
  activated (effects Scenario.healthy_started) =
    activated (effects Scenario.healthy_discovered) ++
    (d_name <$> [Sample.alpha_main; Sample.beta_index]) ∧
  required (effects Scenario.healthy_started) =
    required (effects Scenario.healthy_discovered) ++
    (server_module_path <$> [Sample.alpha_main; Sample.beta_index]).
Proof.
  apply (initializer_starts_every_plugin Sample.healthy new_Server
           Scenario.healthy_discovered Scenario.healthy_started
           [Sample.alpha_main; Sample.beta_index]).
  - vm_compute. reflexivity.
  - vm_compute. reflexivity.
Defined.

Lemma run_actions_keep actions : preserves commands_kept (for_of actions run_action).
Proof.
  apply preserves_for_of; [apply commands_kept_refl | apply commands_kept_trans|].
  intros [name handler config isClientCommand|e]; simpl.
  - apply preserves_bind; [apply commands_kept_trans| |].
    + apply registerCommand_keeps.
    + intros _ s s' r [= <- _]. apply commands_kept_refl.
  - intros s s' r [= <- _]. apply commands_kept_refl.
Qed.

(** One turn of the loop, by what requiring the server file gives. *)
Lemma init_plugin_serverPlugins (w : World) (count : nat) (d : Descriptor)
    (s s' : Server) (r : Completion unit) :
  init_plugin w count d s = (s', r) →
  match server_module w d with
  | Some (Loaded m) => serverPlugins s' = <[d_name d := m]> (serverPlugins s)
  | _ => serverPlugins s' = serverPlugins s ∧ ∃ e, r = Throw e
  end.
Proof.
  unfold init_plugin, require_server_module, require_with, bind, effect, modify.
  simpl. change (find_plugin w (d_name d) ≫= _) with (server_module w d).
  destruct (server_module w d) as [[m|e]|]; simpl.
  - unfold call_handler. destruct (_handler m) as [actions|]; simpl.
    + unfold bind, effect, modify. simpl. intros Hrun.
      by destruct (run_actions_keep actions _ _ _ Hrun) as (_ & _ & ->).
    + by intros [= <- _].
  - intros [= <- <-]. eauto.
  - intros [= <- <-]. eauto.
Qed.

(** X12: once the server file of a Descriptor has loaded, its module is
    stored in [serverPlugins] under the plugin's name before the handler is
    called: it is there when the turn returns, and also when the module has
    no [_handler] or the handler throws. *)
Theorem loaded_module_is_recorded
    (w : World) (count : nat) (d : Descriptor) (m : PluginModule)
    (s s' : Server) (r : Completion unit) :
  server_module w d = Some (Loaded m) →
  init_plugin w count d s = (s', r) →
  serverPlugins s' !! d_name d = Some m ∧
  (∀ other, other ≠ d_name d → serverPlugins s' !! other = serverPlugins s !! other).
Proof.
  intros Hmod Hrun. apply init_plugin_serverPlugins in Hrun.
  rewrite Hmod in Hrun. rewrite Hrun. split.
  - apply lookup_insert_eq.
  - intros other Hother. by apply lookup_insert_ne.
Qed.

Lemma loaded_module_is_recorded_witness :
  serverPlugins (init_plugin Scenario.faults 1 Scenario.faulty_main new_Server).1
    !! d_name Scenario.faulty_main = Some Scenario.faulty_module ∧
  (∀ other, other ≠ d_name Scenario.faulty_main →
     serverPlugins (init_plugin Scenario.faults 1 Scenario.faulty_main new_Server).1
       !! other = serverPlugins new_Server !! other).
Proof.
  apply (loaded_module_is_recorded Scenario.faults 1 Scenario.faulty_main
           Scenario.faulty_module new_Server _
           (init_plugin Scenario.faults 1 Scenario.faulty_main new_Server).2).
  - reflexivity.
  - by destruct (init_plugin _ _ _ _).
Defined.

Lemma init_plugins_app (w : World) (l1 l2 : list Descriptor) (count : nat)
    (s s' : Server) :
  init_plugins w count (l1 ++ l2) s = (s', Normal tt) →
  ∃ s1, init_plugins w count l1 s = (s1, Normal tt) ∧
        init_plugins w (count + length l1) l2 s1 = (s', Normal tt).
Proof.
  revert count s. induction l1 as [|d l1 IH]; intros count s; simpl.
  - intros Hrun. exists s. by rewrite Nat.add_0_r.
  - unfold bind. destruct (init_plugin w count d s) as [s0 [[]| |]]; try done.
    intros Hrun. destruct (IH _ _ Hrun) as (s1 & Hl1 & Hl2).
    exists s1. split; [done|].
    by replace (count + S (length l1)) with (S count + length l1) by lia.
Qed.

Lemma init_plugins_other_slots (w : World) (l : list Descriptor) (count : nat)
    (s s' : Server) (r : Completion unit) (name : string) :
  init_plugins w count l s = (s', r) →
  name ∉ d_name <$> l →
  serverPlugins s' !! name = serverPlugins s !! name.
Proof.
  revert count s. induction l as [|d l IH]; intros count s; simpl.
  - by intros [= <- _].
  - intros Hrun Hname. apply not_elem_of_cons in Hname as [Hne Hname].
    unfold bind in Hrun.
    destruct (init_plugin w count d s) as [s0 c] eqn:Hd.
    assert (serverPlugins s0 !! name = serverPlugins s !! name) as Hs0.
    { apply init_plugin_serverPlugins in Hd.
      destruct (server_module w d) as [[m|e]|].
      - rewrite Hd. by apply lookup_insert_ne.
      - by destruct Hd as [-> _].
      - by destruct Hd as [-> _]. }
    destruct c as [[]|e|].
    + by rewrite (IH _ _ Hrun Hname).
    + by injection Hrun as <- _.
    + by injection Hrun as <- _.
Qed.

(** X13: [serverPlugins] has one slot per plugin name, not per file.
    After a run of the loop in which every turn returned, the slot of a
    plugin holds the module of the last Descriptor of the list that carries
    its name: the modules of its earlier server files have been
    overwritten. *)
Theorem last_server_file_wins
    (w : World) (l1 l2 : list Descriptor) (d : Descriptor) (count : nat)
    (s s' : Server) :
  init_plugins w count (l1 ++ d :: l2) s = (s', Normal tt) →
  d_name d ∉ d_name <$> l2 →
  ∃ m, server_module w d = Some (Loaded m) ∧
       serverPlugins s' !! d_name d = Some m.
Proof.
  intros Hrun Hlast.
  destruct (init_plugins_app _ _ _ _ _ _ Hrun) as (s1 & _ & Hrest).
  simpl in Hrest. unfold bind in Hrest.
  destruct (init_plugin w (count + length l1) d s1) as [s2 [[]|e|]] eqn:Hd;
    try done.
  pose proof (init_plugin_serverPlugins _ _ _ _ _ _ Hd) as Hslot.
  destruct (server_module w d) as [[m|e]|]; [|by destruct Hslot as [_ [? ?]]..].
  exists m. split; [done|].
  rewrite (init_plugins_other_slots _ _ _ _ _ _ _ Hrest Hlast), Hslot.
  apply lookup_insert_eq.
Qed.

Lemma last_server_file_wins_witness :
  ∃ m, server_module Scenario.twins Scenario.twin_b = Some (Loaded m) ∧
       serverPlugins
         (init_plugins Scenario.twins 1 ([Scenario.twin_a] ++ Scenario.twin_b :: [])
            Scenario.twins_discovered).1 !! d_name Scenario.twin_b = Some m.
Proof.
  apply (last_server_file_wins Scenario.twins [Scenario.twin_a] []
           Scenario.twin_b 1 Scenario.twins_discovered).
  - vm_compute. reflexivity.
  - apply (bool_decide_unpack _). vm_compute. exact I.
Defined.

(** X14: two plugins cannot register the same server command.  If the
    entry handler of a plugin starts by registering, as a server command, a
    name that is in the command table when its turn comes, the turn throws
    the duplicate error, [_initServerPlugins] throws it to its caller, and
    the command table is as the earlier plugins left it. *)
Theorem initializer_command_clash
    (w : World) (s s1 sk : Server) (pre post : list Descriptor) (d : Descriptor)
    (m : PluginModule) (name : string) (handler : Handler)
    (config : CommandConfig) (rest : list PluginAction) (entry : CommandWrapper) :
  _getPlugins w "server" (record_effect (Logger "Intializing Server Plugins") s)
    = (s1, Normal (PluginList (pre ++ d :: post))) →
  init_plugins w 1 pre s1 = (sk, Normal tt) →
  server_module w d = Some (Loaded m) →
  _handler m = Some (DoRegisterCommand (Name name) handler config false :: rest) →
  commands sk !! name = Some entry →
  ∃ s2, _initServerPlugins w s = (s2, Throw (DuplicateCommand name)) ∧
        commands s2 = commands sk.
Proof.
  intros Hget Hpre Hmod Hhandler Hentry.
  assert (∃ s2, init_plugin w (1 + length pre) d sk
                  = (s2, Throw (DuplicateCommand name)) ∧
                commands s2 = commands sk) as (s2 & Hd & Hc).
  { unfold init_plugin, require_server_module, require_with, bind, effect, modify.
    simpl. change (find_plugin w (d_name d) ≫= _) with (server_module w d).
    rewrite Hmod. simpl. unfold call_handler. rewrite Hhandler. simpl.
    unfold bind, effect, modify, registerCommand, bind. simpl.
    rewrite addCommand_registered_server by (by erewrite get_own).
    by eexists. }
  exists s2. split; [|done].
  unfold _initServerPlugins, bind, effect, modify. simpl.
  by rewrite Hget, (init_plugins_stops w pre post d 1 s1 sk s2 _ Hpre Hd).
Qed.

Lemma initializer_command_clash_witness :
  ∃ s2, _initServerPlugins Scenario.clash new_Server
          = (s2, Throw (DuplicateCommand "spawn")) ∧
        commands s2 = commands Scenario.clash_after_first.
Proof.
  apply (initializer_command_clash Scenario.clash new_Server
           Scenario.clash_discovered Scenario.clash_after_first
           [Scenario.first_main] [] Scenario.second_main
           {| _handler := Some [DoRegisterCommand (Name "spawn") Sample.other []
                                  false] |}
           "spawn" Sample.other [] []
           (mkCommand "spawn" Sample.greet [] false)).
  - vm_compute. reflexivity.
  - vm_compute. reflexivity.
  - reflexivity.
  - reflexivity.
  - reflexivity.
Defined.

(** ** Version check and start-up *)

Lemma checkPackageVersion_answered (w : World) (remote : string) (s : Server) :
  remote_version w = Some remote →
  ∃ verdict,
    _checkPackageVersion w s
      = (foldl (λ s e, record_effect e s) s
           ([Logger "Welcome! Checking your version...";
             Logger ("You are currently using version " +:+ pkg_version w +:+ ".");
             Fetch version_url] ++ verdict), Normal true) ∧
    verdict =
      match parseInt (remove_dots (pkg_version w)), parseInt (remove_dots remote) with
      | Some currentVersion, Some remoteVersion =>
          if (currentVersion <? remoteVersion)%Z then [Logger (outdated_line remote)]
          else if (remoteVersion <? currentVersion)%Z then [Logger invalid_line]
          else [Logger latest_line]
      | _, _ => []
      end.
Proof.
  intros Hremote. eexists. split; [|done].
  unfold _checkPackageVersion, version_verdict, bind, effect, modify.
  simpl. rewrite Hremote. simpl.
  destruct (parseInt (remove_dots (pkg_version w))) as [c|]; [|done].
  destruct (parseInt (remove_dots remote)) as [r|]; [|done].
  destruct (c <? r)%Z; [done|]. by destruct (r <? c)%Z.
Qed.

Lemma effects_foldl_record (t : list Effect) (s : Server) :
  effects (foldl (λ s e, record_effect e s) s t) = effects s ++ t.
Proof.
  revert s. induction t as [|e t IH]; intros s; simpl.
  - by rewrite app_nil_r.
  - rewrite IH. simpl. by rewrite <- app_assoc.
Qed.



(** X16: when the text of the local version is written in ASCII and,
    with its dots taken out, does not start with a number ([parseInt] gives
    [NaN]), the version check still returns [true] once the remote document
    has arrived, but reports nothing: none of the three verdict lines is
    logged, whatever the remote version is. *)
Theorem version_check_silent_on_NaN (w : World) (remote : string) (s : Server) :
  is_ascii_text (pkg_version w) = true →
  remote_version w = Some remote →
  parseInt (remove_dots (pkg_version w)) = None →
  ∃ s', _checkPackageVersion w s = (s', Normal true) ∧
        effects s' =
          effects s ++
          [Logger "Welcome! Checking your version...";
           Logger ("You are currently using version " +:+ pkg_version w +:+ ".");
           Fetch version_url].
Proof.
  intros _ Hremote Hnan.
  destruct (checkPackageVersion_answered w remote s Hremote) as (verdict & -> & Hv).
  eexists. split; [done|]. rewrite effects_foldl_record.
  rewrite Hnan in Hv. by rewrite Hv.
Qed.

Lemma version_check_silent_on_NaN_witness :
  ∃ s', _checkPackageVersion Scenario.prefixed new_Server = (s', Normal true) ∧
        effects s' =
          effects new_Server ++
          [Logger "Welcome! Checking your version...";
           Logger ("You are currently using version "
                   +:+ pkg_version Scenario.prefixed +:+ ".");
           Fetch version_url].
Proof.
  apply (version_check_silent_on_NaN Scenario.prefixed "1.5.0" new_Server);
    reflexivity.
Defined.

(** X17: when the remote package document never arrives, the promise of
    the version check is never settled and start-up hangs there: the start
    handler neither returns nor throws, [starting] is the only lifecycle
    event emitted, no plugin is discovered, loaded or started, and the
    tables of the server are untouched. *)
Theorem start_hangs_without_remote_version (w : World) (s : Server) :
  remote_version w = None →
  ∃ s', onServerResourceStart w (resource_name w) s = (s', Pending) ∧
        lifecycle (effects s') = lifecycle (effects s) ++ [starting] ∧
        required (effects s') = required (effects s) ∧
        activated (effects s') = activated (effects s) ∧
        plugins s' = plugins s ∧ serverPlugins s' = serverPlugins s ∧
        commands s' = commands s.
Proof.
  intros Hremote. rewrite onServerResourceStart_own.
  unfold _checkPackageVersion, bind, effect, modify, never. simpl.
  rewrite Hremote. eexists. split; [done|]. simpl.
  rewrite !lifecycle_app, !required_app, !activated_app. simpl.
  by rewrite !app_nil_r.
Qed.

Lemma start_hangs_without_remote_version_witness :
  ∃ s', onServerResourceStart Sample.offline (resource_name Sample.offline)
          new_Server = (s', Pending) ∧
        lifecycle (effects s') = lifecycle (effects new_Server) ++ [starting] ∧
        required (effects s') = required (effects new_Server) ∧
        activated (effects s') = activated (effects new_Server) ∧
        plugins s' = plugins new_Server ∧
        serverPlugins s' = serverPlugins new_Server ∧
        commands s' = commands new_Server.
Proof.
  apply (start_hangs_without_remote_version Sample.offline new_Server).
  reflexivity.
Defined.

Lemma lifecycle_idle t : Forall idle t → lifecycle t = [].
Proof.
  induction 1 as [|e t [He _] _ IH]; [done|].
  destruct e; try done; by destruct He.
Qed.

Lemma activated_idle t : Forall idle t → activated t = [].
Proof.
  induction 1 as [|e t [_ He] _ IH]; [done|].
  destruct e; try done; by destruct He.
Qed.

Lemma idle_scan e : is_listing e ∨ is_module_load e → idle e.
Proof. destruct e; intros [[]|[]]; by split; intros []. Qed.

(** X18: when the remote package document arrives and no plugin of the
    folder has a Descriptor for the server surface, a first start returns:
    the three lifecycle events are emitted in order, the empty list is
    cached for the server surface, no handler is called and the command
    table is untouched. *)
Theorem start_without_server_plugins (w : World) (remote : string) (s : Server) :
  remote_version w = Some remote →
  JS.get (plugins s) "server" = JS.Missing →
  flat_map (plugin_descriptors w "server") (pd_name <$> plugin_root w) = [] →
  ∃ s', onServerResourceStart w (resource_name w) s = (s', Normal tt) ∧
        lifecycle (effects s') =
          lifecycle (effects s) ++ [starting; initializing; ready] ∧
        plugins s' !! "server" = Some [] ∧
        commands s' = commands s ∧
        activated (effects s') = activated (effects s).
Proof.
  intros Hremote Hmiss Hnone. rewrite onServerResourceStart_own.
  destruct (checkPackageVersion_answered w remote
              (record_effect (ConsoleLog (banner w))
                 (record_effect (TriggerServerEvent starting) s)) Hremote)
    as (verdict & -> & Hv).
  set (tv := [Logger "Welcome! Checking your version...";
              Logger ("You are currently using version " +:+ pkg_version w +:+ ".");
              Fetch version_url] ++ verdict).
  assert (Forall idle tv) as Hidle.
  { subst tv. apply Forall_app. split.
    - repeat constructor; by intros [].
    - rewrite Hv. repeat case_match; repeat constructor; by intros []. }
  assert (∀ t s0, plugins (foldl (λ s e, record_effect e s) s0 t) = plugins s0 ∧
                  commands (foldl (λ s e, record_effect e s) s0 t) = commands s0)
    as Htables.
  { intros t. induction t as [|e t IH]; intros s0; [done|]. simpl.
    destruct (IH (record_effect e s0)) as [-> ->]. done. }
  set (checked := foldl _ _ tv).
  assert (plugins checked = plugins s ∧ commands checked = commands s ∧
          effects checked =
            effects s ++ [TriggerServerEvent starting; ConsoleLog (banner w)] ++ tv)
    as (Hp & Hc & He).
  { subst checked. destruct (Htables tv (record_effect (ConsoleLog (banner w))
      (record_effect (TriggerServerEvent starting) s))) as [-> ->].
    rewrite effects_foldl_record. simpl. by rewrite <- !app_assoc. }
  unfold _initServerPlugins, bind at 1, effect at 1, modify. simpl.
  unfold bind at 1.
  destruct (getPlugins_miss w "server"
              (record_effect (Logger "Intializing Server Plugins")
                 (record_effect (Logger "Starting Server...")
                    (record_effect (TriggerServerEvent initializing) checked))))
    as (s1 & -> & Hp1 & _ & Hc1 & t1 & Ht1 & HP1).
  { simpl. by rewrite Hp. }
  rewrite Hnone. simpl. unfold bind, effect, modify. simpl.
  eexists. split; [done|]. simpl. rewrite Hp1, Hc1, Ht1. simpl.
  assert (Forall idle t1) as Hidle1
    by (eapply Forall_impl; [exact HP1 | apply idle_scan]).
  rewrite He, !lifecycle_app, !activated_app.
  rewrite (lifecycle_idle _ Hidle), (lifecycle_idle _ Hidle1),
    (activated_idle _ Hidle), (activated_idle _ Hidle1). simpl.
  rewrite !app_nil_r, <- !app_assoc, ?Hnone. simpl.
  split; [done|]. split; [apply lookup_insert_eq|]. by split.
Qed.

Lemma start_without_server_plugins_witness :
  ∃ s', onServerResourceStart Scenario.bare (resource_name Scenario.bare)
          new_Server = (s', Normal tt) ∧
        lifecycle (effects s') =
          lifecycle (effects new_Server) ++ [starting; initializing; ready] ∧
        plugins s' !! "server" = Some [] ∧
        commands s' = commands new_Server ∧
        activated (effects s') = activated (effects new_Server).
Proof.
  apply (start_without_server_plugins Scenario.bare "1.4.0" new_Server);
    reflexivity.
Defined.

(** ** Client settings *)



(** ** Player admission *)

Section Admission.

Import Connecting.

Context (env : Env) (name : string).

(** Every path through the handler. *)
Ltac connecting_cases :=
  unfold let_in, playerConnecting, check_account;
  destruct (valid_license (identifiers env)) as [lic|] eqn:Hlicense;
    [destruct (isWhitelisted env) eqn:Hwhitelist;
       [destruct (findFirst env "whitelist_lists" lic) as [listed|] eqn:Hlisted|]
    |];
  try destruct (ip (identifiers env)) as [last_ip|] eqn:Hip;
  try destruct (findFirst env "users" lic) as [user|] eqn:Huser;
  try destruct (findFirst env "ban_lists" lic) as [ban|] eqn:Hban;
  simpl.


(** X22: storage is consulted in a fixed order and never for a player
    who fails an earlier gate.  The [users] table is read exactly when the
    license is valid and passes the whitelist (if it is switched on); the
    ban list is read exactly when, in addition, the identifiers carry an
    [ip] and the license already has an account, so a banned license
    without an account is not looked up in the ban list. *)
Theorem playerConnecting_reads_in_order :
  ("users" ∈ tables (playerConnecting env name).1 ↔
   ∃ lic, valid_license (identifiers env) = Some lic ∧
          (isWhitelisted env = true →
           is_Some (findFirst env "whitelist_lists" lic))) ∧
  ("ban_lists" ∈ tables (playerConnecting env name).1 ↔
   ∃ lic, valid_license (identifiers env) = Some lic ∧
          (isWhitelisted env = true →
           is_Some (findFirst env "whitelist_lists" lic)) ∧
          is_Some (ip (identifiers env)) ∧
          is_Some (findFirst env "users" lic)).
Proof.
  connecting_cases; rewrite !list_elem_of_In; simpl;
    (split;
     (split;
      [ intros Hin;
        repeat (destruct Hin as [Hin|Hin]; [try discriminate Hin|]);
        try done;
        eexists; (split; [reflexivity|]); repeat split; by eauto
      | intros (lic' & Hl & Hrest); simplify_eq;
        try (destruct Hrest as (Hw & [? Hi] & [? Hu]));
        try (destruct (Hrest eq_refl) as [? Hx]; congruence);
        try (destruct (Hw eq_refl) as [? Hx]; congruence);
        try congruence; try tauto ])).
Qed.

End Admission.

Lemma playerConnecting_banned_newcomer :
  Connecting.let_in (Scenario.env_of false (Some "new") (Some "10.0.0.1")) "Ana" ∧
  Connecting.decisions
    (Connecting.playerConnecting
       (Scenario.env_of false (Some "abc") (Some "10.0.0.1")) "Bo").1
    = [Some "cheating"] ∧
  Connecting.decisions
    (Connecting.playerConnecting
       (Scenario.env_of true (Some "new") (Some "10.0.0.1")) "Ana").1
    = [Some Connecting.not_whitelisted].
Proof. vm_compute. repeat split. Qed.


(** ** Player admission over a storage that can fail *)

Section Awaiting.

Import Connecting Awaited.

Context (host : Host) (name : string).

(** Every path through the handler. *)
Ltac awaited_cases :=
  unfold passes_gates, playerConnecting_with, check_account_with, await;
  destruct (valid_license (player host)) as [lic|] eqn:Hlicense;
    [destruct (whitelisting host) eqn:Hwhitelist;
       [destruct (on_findFirst (storage host) "whitelist_lists" lic)
          as [[listed|]|ew|] eqn:Hlisted|]
    |];
  try destruct (on_findFirst (storage host) "users" lic)
        as [[account|]|eu|] eqn:Huser;
  try destruct (ip (player host)) as [last_ip|] eqn:Hip;
  try destruct (on_findFirst (storage host) "ban_lists" lic)
        as [[ban|]|eb|] eqn:Hban;
  try destruct (on_write (storage host) "users" _) as [[]|ewr|] eqn:Hwrite;
  try destruct (on_update (storage host) "users" _ _) as [[]|eup|] eqn:Hupdate;
  simpl.


(** When every storage call answers, the handler behaves as
    [playerConnecting] over the answers. *)
Lemma playerConnecting_with_answering (env : Env) :
  playerConnecting_with (answering env) name = playerConnecting env name.
Proof.
  unfold playerConnecting_with, playerConnecting, check_account_with,
    check_account, await, answering. simpl.
  destruct (valid_license (identifiers env)) as [lic|]; [|done].
  destruct (isWhitelisted env); simpl.
  - destruct (findFirst env "whitelist_lists" lic); [|done].
    destruct (ip (identifiers env)); [|done].
    destruct (findFirst env "users" lic); [|done].
    by destruct (findFirst env "ban_lists" lic).
  - destruct (ip (identifiers env)); [|done].
    destruct (findFirst env "users" lic); [|done].
    by destruct (findFirst env "ban_lists" lic).
Qed.

(** Past the gates, the handler goes on with the account. *)
Lemma gates_passed_run (lic : string) :
  passes_gates host lic →
  playerConnecting_with host name =
    check_account_with host lic
      ([Defer; Update (hello name); Log (joining name lic)] ++
       if whitelisting host then [FindFirst "whitelist_lists" lic] else []).
Proof.
  intros [Hl Hw]. unfold playerConnecting_with. rewrite Hl.
  destruct (whitelisting host); [|done].
  by destruct (Hw eq_refl) as [row ->].
Qed.


(** X23: the handler changes storage at most once, and only after every
    gate has been passed.  For a license that passes the gates and comes
    with an [ip]: if it has no account, the handler writes one record to
    [users] holding the license, the [ip] and the login time, whether or not
    the license is on the ban list, and it returns exactly when that write
    succeeds; if it has an account and no ban record, the handler updates
    [ip] and login time of that account and returns exactly when that update
    succeeds; if it has an account and a ban record, nothing is changed.
    Whenever the handler has written or updated and returns, its decision
    is to let the player in. *)
Theorem playerConnecting_with_changes_storage :
  length (changes (playerConnecting_with host name).1) ≤ 1 ∧
  (changes (playerConnecting_with host name).1 ≠ [] →
   ∃ lic last_ip answer,
     passes_gates host lic ∧ ip (player host) = Some last_ip ∧
     on_findFirst (storage host) "users" lic = Normal answer) ∧
  (changes (playerConnecting_with host name).1 ≠ [] →
   (playerConnecting_with host name).2 = Normal tt →
   decisions (playerConnecting_with host name).1 = [None]) ∧
  (∀ lic last_ip,
     passes_gates host lic → ip (player host) = Some last_ip →
     (on_findFirst (storage host) "users" lic = Normal None →
      changes (playerConnecting_with host name).1 =
        [Write "users" [("license", lic); ("last_ip", last_ip);
                        ("last_login", clock host)]] ∧
      ((playerConnecting_with host name).2 = Normal tt ↔
       on_write (storage host) "users"
         [("license", lic); ("last_ip", last_ip); ("last_login", clock host)]
         = Normal tt)) ∧
     (∀ account,
        on_findFirst (storage host) "users" lic = Normal (Some account) →
        on_findFirst (storage host) "ban_lists" lic = Normal None →
        changes (playerConnecting_with host name).1 =
          [UpdateWhere "users" [("last_ip", last_ip); ("last_login", clock host)]
                       lic] ∧
        ((playerConnecting_with host name).2 = Normal tt ↔
         on_update (storage host) "users"
           [("last_ip", last_ip); ("last_login", clock host)] lic = Normal tt)) ∧
     (∀ account ban,
        on_findFirst (storage host) "users" lic = Normal (Some account) →
        on_findFirst (storage host) "ban_lists" lic = Normal (Some ban) →
        changes (playerConnecting_with host name).1 = [] ∧
        decisions (playerConnecting_with host name).1 = [field "reason" ban])).
Proof.
  split; [|split; [|split]].
  - awaited_cases; lia.
  - awaited_cases; try done; intros _; eexists _, _, _;
      (split; [split; [reflexivity | by eauto]|]);
      (split; [reflexivity | eassumption]).
  - awaited_cases; done.
  - intros lic last_ip Hgates Hi.
    rewrite (gates_passed_run lic Hgates).
    unfold check_account_with, await. rewrite Hi.
    split; [|split].
    + intros ->. simpl.
      by destruct (whitelisting host), (on_write _ _ _) as [[]|e|].
    + intros account -> ->. simpl.
      by destruct (whitelisting host), (on_update _ _ _ _) as [[]|e|].
    + intros account ban -> ->. simpl. by destruct (whitelisting host).
Qed.

End Awaiting.

(** The write of a new account fails: the handler has asked for the write,
    throws what the write threw, and has taken no decision. *)
Example playerConnecting_write_fails :
  Connecting.changes (Awaited.playerConnecting_with Awaited.duplicate_key "Ana").1
    = [Connecting.Write "users" [("license", "new"); ("last_ip", "10.0.0.1");
                                 ("last_login", "1/1/2022, 12:00:00 AM")]] ∧
  (Awaited.playerConnecting_with Awaited.duplicate_key "Ana").2
    = Throw (JSError "ER_DUP_ENTRY") ∧
  Connecting.decisions
    (Awaited.playerConnecting_with Awaited.duplicate_key "Ana").1 = [].
Proof. vm_compute. repeat split. Qed.

(** A returning player without a ban record has the account updated
    and is let in. *)
Example playerConnecting_returning_player :
  Connecting.changes (Awaited.playerConnecting_with Awaited.returning "Bo").1
    = [Connecting.UpdateWhere "users"
         [("last_ip", "10.0.0.2"); ("last_login", "1/1/2022, 12:00:00 AM")]
         "kept"] ∧
  (Awaited.playerConnecting_with Awaited.returning "Bo").2 = Normal tt ∧
  Connecting.decisions (Awaited.playerConnecting_with Awaited.returning "Bo").1
    = [None].
Proof. vm_compute. repeat split. Qed.
